(** * robotoff: OCR insight extraction and insight annotation

    A shallow embedding of [scripts/generate_ocr_insight.py] (the OCR
    document model, the pattern registry and the extraction functions) and
    of [robotoff/insights/annotate.py] (the annotators and the offset
    reconciliation of ingredient spellcheck insights), followed by the
    properties proved about them. *)

From Stdlib Require Import ZArith NArith String Ascii List Lia.
From stdpp Require Import base option list gmap strings.

Local Open Scope string_scope.
Local Open Scope Z_scope.
Local Open Scope list_scope.

Set Warnings "-register-all".

(** ** The Python values the two modules handle *)

Module Py.

(** A Python [str] is a sequence of Unicode code points. *)
Definition char := N.
Definition str := list char.

Definition of_ascii (a : ascii) : char := N_of_ascii a.

(** Source literals: the code points of an ASCII literal. *)
Fixpoint lit (s : string) : str :=
  match s with
  | EmptyString => []
  | String a s' => of_ascii a :: lit s'
  end.

(** The exceptions raised by the code under study. *)
Inductive exn :=
| KeyError (key : str)
| TypeError
| AttributeError
| ValueError (msg : str).

Inductive result (A : Type) :=
| Ok (a : A)
| Raise (e : exn).
Arguments Ok {A} a.
Arguments Raise {A} e.

#[export] Instance result_ret : MRet result := fun _ a => Ok a.

#[export] Instance result_bind : MBind result := fun _ _ f r =>
  match r with
  | Ok a => f a
  | Raise e => Raise e
  end.

(** A [for] loop whose body may raise: the loop state is threaded through
    the iterations and the first exception leaves the loop. *)
Fixpoint for_ {A S} (xs : list A) (body : A -> S -> result S) (s : S)
  : result S :=
  match xs with
  | [] => Ok s
  | x :: xs' => s' ← body x s; for_ xs' body s'
  end.

(** The parts of the Unicode character database that [str.lower] and the
    [re] module consult for text outside Basic Latin. The database is the
    interpreter's, not the repository's: it is a parameter. *)
Class UnicodeData := {
  (** [str.lower] of a string that is not pure ASCII *)
  unicode_lower : str -> str;
  (** decimal digits (category Nd) beyond U+007F *)
  unicode_digit : char -> bool;
  (** white space beyond U+007F *)
  unicode_space : char -> bool;
  (** the other-case forms of a code point beyond U+007F *)
  unicode_case_variants : char -> list char
}.

Definition is_ascii (c : char) : bool := (c <? 128)%N.

(** The letters of the Latin-1 supplement: U+00C0 to U+00DE without the
    multiplication sign are upper case, U+00E0 to U+00FE without the
    division sign are lower case. *)
Definition latin1_upper (c : char) : bool :=
  (192 <=? c)%N && (c <=? 222)%N && negb (c =? 215)%N.
Definition latin1_lower (c : char) : bool :=
  (224 <=? c)%N && (c <=? 254)%N && negb (c =? 247)%N.

(** The tables for text below U+0100, used to run the code on sample
    documents: there is no decimal digit between U+0080 and U+00FF, the
    white space there is the next-line control and the no-break space. *)
Definition latin1 : UnicodeData :=
  {| unicode_lower :=
       map (fun c => if (65 <=? c)%N && (c <=? 90)%N || latin1_upper c
                     then (c + 32)%N else c);
     unicode_digit := fun _ => false;
     unicode_space := fun c => (c =? 133)%N || (c =? 160)%N;
     unicode_case_variants := fun c =>
       if latin1_upper c then [(c + 32)%N]
       else if latin1_lower c then [(c - 32)%N]
       else [] |}.

Definition in_range (lo hi c : char) : bool := ((lo <=? c) && (c <=? hi))%N.

Definition ascii_upper (c : char) : bool := in_range 65%N 90%N c.
Definition ascii_lower (c : char) : bool := in_range 97%N 122%N c.

Definition ascii_tolower (c : char) : char :=
  if ascii_upper c then (c + 32)%N else c.

Definition ascii_swapcase (c : char) : char :=
  if ascii_upper c then (c + 32)%N
  else if ascii_lower c then (c - 32)%N else c.

(** [str.lower()]: pure ASCII strings take the byte-wise path, the others
    go through the Unicode tables. *)
Definition lower `{UnicodeData} (s : str) : str :=
  if forallb is_ascii s then map ascii_tolower s else unicode_lower s.

(** [s.replace(old, new)] for a one-character [old]. *)
Definition replace (old : char) (new : str) (s : str) : str :=
  flat_map (fun c => if (c =? old)%N then new else [c]) s.

(** Values decoded by [json.load]; numbers are the integers. *)
Inductive json :=
| JNull
| JBool (b : bool)
| JInt (z : Z)
| JStr (s : str)
| JArr (l : list json)
| JObj (m : gmap str json).

Abbreviation dict := (gmap str json).

(** Truth value of an object, as tested by [if x:]. *)
Definition truthy (v : json) : bool :=
  match v with
  | JNull => false
  | JBool b => b
  | JInt z => negb (z =? 0)%Z
  | JStr s => negb (bool_decide (s = []))
  | JArr l => negb (bool_decide (l = []))
  | JObj m => negb (bool_decide (m = ∅))
  end.

(** [d[key]] on a dict. *)
Definition getitem (d : dict) (key : str) : result json :=
  match d !! key with
  | Some v => Ok v
  | None => Raise (KeyError key)
  end.

(** [v[key]] with a string key on any value: only dicts can be indexed
    by a string. *)
Definition subscript (v : json) (key : str) : result json :=
  match v with
  | JObj d => getitem d key
  | _ => Raise TypeError
  end.

(** [v.get(key, default)]: a method of dicts only. *)
Definition get_method (v : json) (key : str) (dflt : json)
  : result json :=
  match v with
  | JObj d => Ok (default dflt (d !! key))
  | _ => Raise AttributeError
  end.

(** The items a [for] loop over a value visits. A dict yields its keys and
    a string its characters. *)
Definition iter (v : json) : result (list json) :=
  match v with
  | JArr l => Ok l
  | JStr s => Ok (map (fun c => JStr [c]) s)
  | JObj m => Ok (map (fun kv => JStr (fst kv)) (map_to_list m))
  | _ => Raise TypeError
  end.

(** [len(v)]. *)
Definition len (v : json) : result Z :=
  match v with
  | JStr s => Ok (Z.of_nat (length s))
  | JArr l => Ok (Z.of_nat (length l))
  | JObj m => Ok (Z.of_nat (size m))
  | _ => Raise TypeError
  end.

(** [v + n] for an integer [n]; [bool] is a subclass of [int]. *)
Definition add_int (v : json) (n : Z) : result json :=
  match v with
  | JInt z => Ok (JInt (z + n))
  | JBool b => Ok (JInt (Z.b2z b + n))
  | _ => Raise TypeError
  end.

(** [v.lower()]: a method of strings only. *)
Definition lower_method `{UnicodeData} (v : json) : result json :=
  match v with
  | JStr s => Ok (JStr (lower s))
  | _ => Raise AttributeError
  end.

(** ["{}".format(v)] of a captured group, [None] when the group did not
    take part in the match. *)
Definition format_group (g : option str) : str :=
  default (lit "None") g.

End Py.

(** ** The fragment of the [re] module the pattern registry uses *)

Module Re.
Import Py.

(** One member of a bracketed class, or a class escape. *)
Inductive cset_item :=
| CChar (c : char)
| CRange (lo hi : char)
| CDigit                      (* \d *)
| CSpace.                     (* \s *)

(** Patterns: literals and classes, sequence, alternation, numbered
    capturing groups and greedy bounded repetition ([?] is [{0,1}]). *)
Inductive regex :=
| Eps
| Chars (cs : list cset_item)
| Seq (r1 r2 : regex)
| Alt (r1 r2 : regex)
| Group (i : nat) (r : regex)
| Repeat (lo hi : nat) (r : regex).

(** A compiled pattern: [re.compile(pattern, flags)]. *)
Record pattern := Compile { body : regex; ignorecase : bool }.

Definition digit `{UnicodeData} (c : char) : bool :=
  if is_ascii c then in_range 48%N 57%N c else unicode_digit c.

(** White space in a [str] pattern: tab to carriage return, the four
    separators U+001C to U+001F and the space. *)
Definition space `{UnicodeData} (c : char) : bool :=
  if is_ascii c
  then in_range 9%N 13%N c || in_range 28%N 31%N c || (c =? 32)%N
  else unicode_space c.

Definition item_matches `{UnicodeData} (it : cset_item) (c : char) : bool :=
  match it with
  | CChar c' => (c =? c')%N
  | CRange lo hi => in_range lo hi c
  | CDigit => digit c
  | CSpace => space c
  end.

(** The forms of [c] in the other case. The ASCII letters i, s and k also
    stand for the dotted and dotless i, the long s and the Kelvin sign. *)
Definition case_variants `{UnicodeData} (c : char) : list char :=
  if is_ascii c then
    (if ascii_upper c || ascii_lower c then [ascii_swapcase c] else [])
    ++ (if (ascii_tolower c =? 105)%N then [304%N; 305%N]
        else if (ascii_tolower c =? 115)%N then [383%N]
        else if (ascii_tolower c =? 107)%N then [8490%N]
        else [])
  else unicode_case_variants c.

Definition cset_matches `{UnicodeData} (icase : bool) (cs : list cset_item)
    (c : char) : bool :=
  existsb (fun it => item_matches it c) cs
  || (icase &&
      existsb (fun c' => existsb (fun it => item_matches it c') cs)
              (case_variants c)).

(** Captured groups, the most recent binding of a number first. *)
Definition captures := list (nat * str).

(** The text consumed between the suffix [s] and its suffix [s']. *)
Definition consumed (s s' : str) : str := take (length s - length s') s.

(** Backtracking matcher in continuation-passing style: [k] receives the
    rest of the subject and the groups captured so far, and answers [None]
    to make the matcher try its next alternative. *)
Fixpoint run `{UnicodeData} {A} (icase : bool) (r : regex) (s : str)
    (caps : captures) (k : str -> captures -> option A) : option A :=
  match r with
  | Eps => k s caps
  | Chars cs =>
      match s with
      | c :: s' => if cset_matches icase cs c then k s' caps else None
      | [] => None
      end
  | Seq r1 r2 =>
      run icase r1 s caps (fun s' caps' => run icase r2 s' caps' k)
  | Alt r1 r2 =>
      match run icase r1 s caps k with
      | Some a => Some a
      | None => run icase r2 s caps k
      end
  | Group i r1 =>
      run icase r1 s caps (fun s' caps' => k s' ((i, consumed s s') :: caps'))
  | Repeat lo hi r1 =>
      (fix rep (lo hi : nat) (s : str) (caps : captures)
           (k : str -> captures -> option A) {struct hi} : option A :=
         match hi with
         | O => if decide (lo = 0)%nat then k s caps else None
         | S hi' =>
             match run icase r1 s caps
                     (fun s' caps' => rep (pred lo) hi' s' caps' k) with
             | Some a => Some a
             | None => if decide (lo = 0)%nat then k s caps else None
             end
         end) lo hi s caps k
  end.

(** A match object: [group(0)] and the numbered groups. *)
Record Match := { group0 : str; groups : captures }.

(** [match.group(i)] for [i >= 1]; [None] for a group that did not take
    part in the match. Every processing function of the registry is paired
    with a pattern that has the groups it asks for. *)
Definition group (m : Match) (i : nat) : option str :=
  snd <$> find (fun p => bool_decide (fst p = i)) (groups m).

(** A match starting at the head of [s]; with [must_advance] an empty
    match is refused. *)
Definition match_at `{UnicodeData} (p : pattern) (must_advance : bool)
    (s : str) : option Match :=
  run (ignorecase p) (body p) s []
    (fun s' caps =>
       if must_advance && bool_decide (length s' = length s) then None
       else Some {| group0 := consumed s s'; groups := caps |}).

(** The scan of [finditer]: [skip] characters of the last match are still
    to be stepped over. After an empty match the same position is tried
    once more for a match that advances. *)
Fixpoint scan `{UnicodeData} (p : pattern) (skip : nat) (s : str)
    {struct s} : list Match :=
  match skip, s with
  | S n, _ :: s' => scan p n s'
  | S _, [] => []
  | O, [] =>
      match match_at p false [] with
      | Some m => [m]
      | None => []
      end
  | O, _ :: s' =>
      match match_at p false s with
      | Some m =>
          match group0 m with
          | [] =>
              m :: match match_at p true s with
                   | Some m' => m' :: scan p (pred (length (group0 m'))) s'
                   | None => scan p 0 s'
                   end
          | _ :: g => m :: scan p (length g) s'
          end
      | None => scan p 0 s'
      end
  end.

(** [pattern.finditer(text)], every match in the order found; the subject
    has to be a string. *)
Definition finditer `{UnicodeData} (p : pattern) (text : json)
  : result (list Match) :=
  match text with
  | JStr s => Ok (scan p 0 s)
  | _ => Raise TypeError
  end.

(** Pattern syntax helpers: a literal string and the usual classes. *)
Definition chr (a : ascii) : regex := Chars [CChar (of_ascii a)].

Fixpoint text (s : string) : regex :=
  match s with
  | EmptyString => Eps
  | String a EmptyString => chr a
  | String a s' => Seq (chr a) (text s')
  end.

Fixpoint seq (rs : list regex) : regex :=
  match rs with
  | [] => Eps
  | [r] => r
  | r :: rs' => Seq r (seq rs')
  end.

Definition opt (r : regex) : regex := Repeat 0 1 r.

End Re.

(** ** scripts/generate_ocr_insight.py *)

Module OCR.
Import Py Re.

Module OCRField.
Inductive t :=
| full_text
| full_text_contiguous
| text_annotations.
End OCRField.

Section Extraction.
Context `{UnicodeData}.

Definition process_fr_packaging_match (m : Match) : result str :=
let country_code := group m 1 in
let approval_numbers := [group m 2; group m 3; group m 4] in
let ec := group m 5 in
Ok (format_group country_code ++ lit " "
    ++ format_group (approval_numbers !!! 0%nat) ++ lit "."
    ++ format_group (approval_numbers !!! 1%nat) ++ lit "."
    ++ format_group (approval_numbers !!! 2%nat) ++ lit " "
    ++ format_group ec).

Definition process_fr_emb_match (m : Match) : result str :=
let emb_str := group m 1 in
let company_code := group m 3 in
match group m 2 with
| None => Raise AttributeError
| Some city_code =>
    let city_code := replace 32%N [] city_code in
    let company_code := Some (default [] company_code) in
    Ok (format_group emb_str ++ lit " " ++ city_code
        ++ format_group company_code)
end.

Definition process_eu_bio_label_code (m : Match) : result str :=
Ok (format_group (group m 1) ++ lit "-"
    ++ format_group (group m 2) ++ lit "-"
    ++ format_group (group m 3)).

Record OCRRegex := {
regex : pattern;
field : OCRField.t;
lowercase : bool;
processing_func : option (Match -> result str)
}.

(** Pieces shared by the patterns below. *)
Definition d : Re.regex := Chars [CDigit].
Definition sp : Re.regex := chr " ".
(** [[\-\s.]] *)
Definition dash_space_dot : Re.regex :=
Chars [CChar (of_ascii "-"); CSpace; CChar (of_ascii ".")].
(** [[\s.,)]] *)
Definition space_punct : Re.regex :=
Chars [CSpace; CChar (of_ascii "."); CChar (of_ascii ",");
       CChar (of_ascii ")")].
(** [[ée]] *)
Definition e_acute_or_e : Re.regex := Chars [CChar 233%N; CChar (of_ascii "e")].

(** [(EMB) ?(\d ?\d ?\d ?\d ?\d)([a-zA-Z]{1,2})?] *)
Definition fr_emb_re : pattern :=
Compile
  (seq [Group 1 (text "EMB"); opt sp;
        Group 2 (seq [d; opt sp; d; opt sp; d; opt sp; d; opt sp; d]);
        opt (Group 3 (Repeat 1 2
               (Chars [CRange (of_ascii "a") (of_ascii "z");
                       CRange (of_ascii "A") (of_ascii "Z")])))])
  false.

(** [(FR) (\d{1,3})[\-\s.](\d{1,3})[\-\s.](\d{1,3}) (CE|EC)] *)
Definition eu_fr_re : pattern :=
Compile
  (seq [Group 1 (text "FR"); sp;
        Group 2 (Repeat 1 3 d); dash_space_dot;
        Group 3 (Repeat 1 3 d); dash_space_dot;
        Group 4 (Repeat 1 3 d); sp;
        Group 5 (Alt (text "CE") (text "EC"))])
  false.

Definition PACKAGER_CODE : list (str * OCRRegex) :=
[ (lit "fr_emb",
   {| regex := fr_emb_re;
      field := OCRField.text_annotations;
      lowercase := true;
      processing_func := Some process_fr_emb_match |});
  (lit "eu_fr",
   {| regex := eu_fr_re;
      field := OCRField.full_text_contiguous;
      lowercase := true;
      processing_func := Some process_fr_packaging_match |}) ].

Definition LABELS_REGEX : list (str * list OCRRegex) :=
[ (lit "en:organic",
   [ (* ingr[ée]dients?\sbiologiques?, re.IGNORECASE *)
     {| regex := Compile
          (seq [text "ingr"; e_acute_or_e; text "dient"; opt (chr "s");
                Chars [CSpace]; text "biologique"; opt (chr "s")])
          true;
        field := OCRField.full_text_contiguous;
        lowercase := true;
        processing_func := None |};
     (* ingr[ée]dients?\sbio[\s.,)] *)
     {| regex := Compile
          (seq [text "ingr"; e_acute_or_e; text "dient"; opt (chr "s");
                Chars [CSpace]; text "bio"; space_punct])
          false;
        field := OCRField.full_text_contiguous;
        lowercase := true;
        processing_func := None |};
     (* agriculture ue/non ue biologique *)
     {| regex := Compile (text "agriculture ue/non ue biologique") false;
        field := OCRField.full_text_contiguous;
        lowercase := true;
        processing_func := None |};
     (* agriculture bio(?:logique)?[\s.,)] *)
     {| regex := Compile
          (seq [text "agriculture bio"; opt (text "logique"); space_punct])
          false;
        field := OCRField.full_text_contiguous;
        lowercase := true;
        processing_func := None |};
     (* production bio(?:logique)?[\s.,)] *)
     {| regex := Compile
          (seq [text "production bio"; opt (text "logique"); space_punct])
          false;
        field := OCRField.full_text_contiguous;
        lowercase := true;
        processing_func := None |} ]);
  (lit "xx-bio-xx",
   [ (* ([A-Z]{2})[\-\s.](BIO|ÖKO)[\-\s.](\d{2,3}) *)
     {| regex := Compile
          (seq [Group 1 (Repeat 2 2
                   (Chars [CRange (of_ascii "A") (of_ascii "Z")]));
                dash_space_dot;
                Group 2 (Alt (text "BIO")
                             (seq [Chars [CChar 214%N]; text "KO"]));
                dash_space_dot;
                Group 3 (Repeat 2 3 d)])
          false;
        field := OCRField.text_annotations;
        lowercase := false;
        processing_func := Some process_eu_bio_label_code |} ]);
  (lit "fr:ab-agriculture-biologique",
   [ (* certifi[ée] ab[\s.,)] *)
     {| regex := Compile
          (seq [text "certifi"; e_acute_or_e; text " ab"; space_punct])
          false;
        field := OCRField.full_text_contiguous;
        lowercase := true;
        processing_func := None |} ]) ].

End Extraction.

Module OCRFullTextAnnotation.
Record t := {
  text : str;
  pages : list json;
  contiguous_text : str
}.

(** [__init__]: [data['text']] has to exist and to have a [replace]
    method, which among decoded JSON values only a string has. *)
Definition init (data : json) : result t :=
  v ← subscript data (lit "text");
  match v with
  | JStr text =>
      Ok {| text := text;
            contiguous_text := replace 10%N (lit " ") text;
            pages := [] |}
  | _ => Raise AttributeError
  end.
End OCRFullTextAnnotation.

Module OCRTextAnnotation.
Record t := {
  locale : json;
  text : json;
  bounding_poly : list (json * json)
}.

Definition init (data : json) : result t :=
  locale ← get_method data (lit "locale") JNull;
  text ← subscript data (lit "description");
  poly ← subscript data (lit "boundingPoly");
  vertices ← subscript poly (lit "vertices");
  points ← iter vertices;
  bounding_poly ←
    mapM (fun point =>
            x ← get_method point (lit "x") (JInt 0);
            y ← get_method point (lit "y") (JInt 0);
            Ok (x, y)) points;
  Ok {| locale := locale; text := text; bounding_poly := bounding_poly |}.
End OCRTextAnnotation.

Module OCRResult.
Record t := {
  text_annotations : list OCRTextAnnotation.t;
  full_text_annotation : option OCRFullTextAnnotation.t
}.

(** [__init__(self, data)]: [data] is the dict of one provider
    response. *)
Definition init (data : dict) : result t :=
  let text_annotations := [] in
  let full_text_annotation := None in
  items ← iter (default (JArr []) (data !! lit "textAnnotations"));
  text_annotations ←
    for_ items
      (fun text_annotation_data text_annotations =>
         text_annotation ← OCRTextAnnotation.init text_annotation_data;
         Ok (text_annotations ++ [text_annotation]))
      text_annotations;
  let full_text_annotation_data :=
    default JNull (data !! lit "fullTextAnnotation") in
  full_text_annotation ←
    (if truthy full_text_annotation_data
     then fta ← OCRFullTextAnnotation.init full_text_annotation_data;
          Ok (Some fta)
     else Ok full_text_annotation);
  Ok {| text_annotations := text_annotations;
        full_text_annotation := full_text_annotation |}.

Section Queries.
Context `{UnicodeData}.

Definition get_full_text (self : t) (lowercase : bool) : option str :=
match full_text_annotation self with
| Some fta =>
    if lowercase then Some (lower (OCRFullTextAnnotation.text fta))
    else Some (OCRFullTextAnnotation.text fta)
| None => None
end.

Definition get_full_text_contiguous (self : t) (lowercase : bool)
: option str :=
match full_text_annotation self with
| Some fta =>
    if lowercase
    then Some (lower (OCRFullTextAnnotation.contiguous_text fta))
    else Some (OCRFullTextAnnotation.contiguous_text fta)
| None => None
end.

(** The generator, run to its end: the values it yields, in order. With
  [lowercase] the body yields the lowered text and then falls through
  to the second [yield]. *)
Definition iter_text_annotations (self : t) (lowercase : bool)
: result (list json) :=
for_ (text_annotations self)
  (fun text_annotation yielded =>
     yielded ←
       (if lowercase
        then low ← lower_method (OCRTextAnnotation.text text_annotation);
             Ok (yielded ++ [low])
        else Ok yielded);
     Ok (yielded ++ [OCRTextAnnotation.text text_annotation]))
  [].

(** The test [if text:] on an optional string. *)
Definition nonempty (text : option str) : option str :=
match text with
| Some (c :: s) => Some (c :: s)
| _ => None
end.

(** [get_text]. The last branch of the source, for a field that is none
  of the three members of [OCRField], has no counterpart here. *)
Definition get_text (self : t) (ocr_regex : OCRRegex)
: result (list json) :=
match field ocr_regex with
| OCRField.full_text =>
    match nonempty (get_full_text self (lowercase ocr_regex)) with
    | Some text => Ok [JStr text]
    | None => Ok []
    end
| OCRField.full_text_contiguous =>
    match nonempty
            (get_full_text_contiguous self (lowercase ocr_regex)) with
    | Some text => Ok [JStr text]
    | None => Ok []
    end
| OCRField.text_annotations =>
    iter_text_annotations self (lowercase ocr_regex)
end.

End Queries.
End OCRResult.

Section Find.
Context `{UnicodeData}.

Definition find_packager_codes (ocr_result : OCRResult.t)
: result (list dict) :=
for_ PACKAGER_CODE
  (fun '(regex_code, ocr_regex) results =>
     texts ← OCRResult.get_text ocr_result ocr_regex;
     for_ texts
       (fun text results =>
          matches ← finditer (regex ocr_regex) text;
          for_ matches
            (fun m results =>
               value ← match processing_func ocr_regex with
                       | Some f => f m
                       | None => Raise TypeError
                       end;
               Ok (results ++
                     [ {[ lit "raw" := JStr (group0 m);
                          lit "text" := JStr value;
                          lit "type" := JStr regex_code ]} ]))
            results)
       results)
  [].

Definition find_labels (ocr_result : OCRResult.t) : result (list dict) :=
for_ LABELS_REGEX
  (fun '(label_tag, regex_list) results =>
     for_ regex_list
       (fun ocr_regex results =>
          texts ← OCRResult.get_text ocr_result ocr_regex;
          for_ texts
            (fun text results =>
               matches ← finditer (regex ocr_regex) text;
               for_ matches
                 (fun m results =>
                    label_value ← match processing_func ocr_regex with
                                  | Some f => f m
                                  | None => Ok label_tag
                                  end;
                    Ok (results ++
                          [ {[ lit "label_tag" := JStr label_value;
                               lit "text" := JStr (group0 m) ]} ]))
                 results)
            results)
       results)
  [].

Definition extract_insights (ocr_result : OCRResult.t) (insight_type : str)
: result (list dict) :=
if decide (insight_type = lit "packager_code")
then find_packager_codes ocr_result
else if decide (insight_type = lit "label")
then find_labels ocr_result
else Raise (ValueError (lit "unknown insight type: " ++ insight_type)).

End Find.
End OCR.

(** ** robotoff/insights/annotate.py *)

Module Annotate.
Import Py.

(** Modelled from the spec: the [ProductInsight] model class, imported
    from [robotoff.models]. A stored insight has a barcode, a type, a data
    payload that may hold [start_offset] and [end_offset], and an
    annotation state ([None] while the insight is pending); [id] is its
    primary key. *)
Module ProductInsight.
Record t := {
  id : N;
  barcode : str;
  type : str;
  data : dict;
  annotation : option Z
}.

Definition set_data (self : t) (data : dict) : t :=
  {| id := id self; barcode := barcode self; type := type self;
     data := data; annotation := annotation self |}.
End ProductInsight.
Import ProductInsight.

(** Modelled from the spec: the database handle [db], imported from
    [robotoff.models]. The table of insights, and a journal of the primary
    keys of the rows written by [save()], oldest first. *)
Record database := {
  rows : list ProductInsight.t;
  journal : list N
}.

(** A statement block that reads and writes the database and may raise. *)
Definition action (A : Type) : Type := database -> result A * database.

#[export] Instance action_ret : MRet action := fun _ a db => (Ok a, db).

#[export] Instance action_bind : MBind action := fun _ _ f m db =>
  match m db with
  | (Ok a, db') => f a db'
  | (Raise e, db') => (Raise e, db')
  end.

(** A computation that does not touch the database. *)
Definition pure {A} (r : result A) : action A := fun db => (r, db).

Fixpoint for_each {A} (xs : list A) (body : A -> action ()) : action () :=
  match xs with
  | [] => mret ()
  | x :: xs' => body x ;; for_each xs' body
  end.

(** [ProductInsight.select().where(...)]: the rows that satisfy the
    condition, read when the loop starts. *)
Definition select_where (cond : ProductInsight.t -> bool)
  : action (list ProductInsight.t) :=
  fun db => (Ok (filter cond (rows db)), db).

(** [other.save()]: the row with the primary key of [other] is overwritten
    with the fields of [other]. *)
Definition save (other : ProductInsight.t) : action () :=
  fun db =>
    (Ok (),
     {| rows := map (fun r => if decide (id r = id other) then other else r)
                    (rows db);
        journal := journal db ++ [id other] |}).

(** [with db.atomic():] the block runs in a transaction, committed when
    the block ends and rolled back when it raises; the exception goes on
    to the caller. *)
Definition atomic {A} (block : action A) : action A :=
  fun db =>
    match block db with
    | (Ok a, db') => (Ok a, db')
    | (Raise e, db') => (Raise e, {| rows := rows db; journal := journal db' |})
    end.

(** The interface [InsightAnnotator] and its two implementations. *)
Inductive InsightAnnotator :=
| PackagerCodeAnnotator
| IngredientSpellcheckAnnotator.

Module IngredientSpellcheckAnnotator.

(** The condition of the query in [annotate]. *)
Definition others (barcode : str) (insight_id : N)
    (other : ProductInsight.t) : bool :=
  bool_decide (ProductInsight.barcode other = barcode)
  && bool_decide (id other ≠ insight_id)
  && bool_decide (type other = lit "ingredient_spellcheck").

(** [other.data[key] += diff_len] *)
Definition iadd (other : ProductInsight.t) (key : str) (diff_len : Z)
  : result ProductInsight.t :=
  v ← getitem (data other) key;
  v' ← add_int v diff_len;
  Ok (set_data other (<[key := v']> (data other))).

(** The two assignments of the loop body. *)
Definition shift (diff_len : Z) (other : ProductInsight.t)
  : result ProductInsight.t :=
  other ← iadd other (lit "start_offset") diff_len;
  iadd other (lit "end_offset") diff_len.

(** The body of the loop: the two assignments, then [other.save()]. *)
Definition shift_and_save (diff_len : Z) (other : ProductInsight.t)
  : action () :=
  other ← pure (shift diff_len other);
  save other.

(** The loop of [annotate], as it runs inside the transaction. *)
Definition update_others (barcode : str) (insight_id : N) (diff_len : Z)
  : action () :=
  selected ← select_where (others barcode insight_id);
  for_each selected (shift_and_save diff_len).

Definition annotate (insight : ProductInsight.t) : action () :=
  let barcode := barcode insight in
  diff_len ← pure (correction ← getitem (data insight) (lit "correction");
                   len_correction ← len correction;
                   original ← getitem (data insight) (lit "original");
                   len_original ← len original;
                   Ok (len_correction - len_original));
  if decide (diff_len = 0) then mret ()
  else atomic (update_others barcode (id insight) diff_len).

End IngredientSpellcheckAnnotator.

Module InsightAnnotatorFactory.
Definition mapping : gmap str InsightAnnotator :=
  {[ lit "packager_code" := PackagerCodeAnnotator;
     lit "ingredient_spellcheck" := IngredientSpellcheckAnnotator ]}.

Definition create (identifier : str) : result InsightAnnotator :=
  match mapping !! identifier with
  | None => Raise (ValueError (lit "unknown annotator: " ++ identifier))
  | Some cls => Ok cls
  end.
End InsightAnnotatorFactory.

(** Vocabulary of the statements about the reconciliation. *)
Module Reconciliation.
Import IngredientSpellcheckAnnotator.

(** The primary key is unique in the table. *)
Definition primary_key (db : database) : Prop :=
  NoDup (map id (rows db)).

(** [other] is another insight of the product of [insight], of type
    [ingredient_spellcheck]. *)
Definition sibling (insight other : ProductInsight.t) : Prop :=
  barcode other = barcode insight
  ∧ id other ≠ id insight
  ∧ type other = lit "ingredient_spellcheck".

(** A row carries integer offsets. *)
Definition has_offsets (other : ProductInsight.t) : Prop :=
  ∃ s e : Z, data other !! lit "start_offset" = Some (JInt s)
             ∧ data other !! lit "end_offset" = Some (JInt e).

(** The row [shift] answers, and the row itself where [shift] raises. *)
Definition shifted (diff_len : Z) (other : ProductInsight.t)
  : ProductInsight.t :=
  match shift diff_len other with
  | Ok other' => other'
  | Raise _ => other
  end.

(** The row, among the rows [l] saved by the loop, that overwrites the
    row [r] of the table. *)
Definition writer (l : list ProductInsight.t) (r : ProductInsight.t)
  : option ProductInsight.t :=
  find (fun o => bool_decide (id o = id r)) l.
End Reconciliation.

End Annotate.

(** ** The extraction order, as the specification words it *)

Module ExtractionOrder.
Import Py Re OCR.

Section Order.
Context `{UnicodeData}.

(** The insight types [extract_insights] knows. *)
Definition registered (insight_type : str) : Prop :=
insight_type = lit "packager_code" ∨ insight_type = lit "label".

(** The record of one match of a packager code matcher. *)
Definition packager_code_record (regex_code : str) (ocr_regex : OCRRegex)
  (m : Match) : result dict :=
value ← match processing_func ocr_regex with
        | Some f => f m
        | None => Raise TypeError
        end;
Ok {[ lit "raw" := JStr (group0 m);
      lit "text" := JStr value;
      lit "type" := JStr regex_code ]}.

(** The record of one match of a label matcher. *)
Definition label_record (label_tag : str) (ocr_regex : OCRRegex)
  (m : Match) : result dict :=
label_value ← match processing_func ocr_regex with
              | Some f => f m
              | None => Ok label_tag
              end;
Ok {[ lit "label_tag" := JStr label_value;
      lit "text" := JStr (group0 m) ]}.

(** The records of one matcher: candidate after candidate in the order of
  [get_text], and for each candidate its matches in the order found. *)
Definition matcher_records (record : Match -> result dict)
  (ocr_regex : OCRRegex) (ocr_result : OCRResult.t)
: result (list dict) :=
texts ← OCRResult.get_text ocr_result ocr_regex;
per_text ← mapM (fun text =>
                   matches ← finditer (regex ocr_regex) text;
                   mapM record matches) texts;
Ok (concat per_text).

(** The matchers of the label category in registry order, each with the
  tag it is listed under. *)
Definition label_matchers : list (str * OCRRegex) :=
flat_map (fun '(label_tag, regex_list) =>
            map (fun ocr_regex => (label_tag, ocr_regex)) regex_list)
         LABELS_REGEX.

(** The output for a category: matcher after matcher in registry order. *)
Definition ordered_records (ocr_result : OCRResult.t) (insight_type : str)
: result (list dict) :=
if decide (insight_type = lit "packager_code") then
  per_matcher ← mapM (fun '(regex_code, ocr_regex) =>
                        matcher_records
                          (packager_code_record regex_code ocr_regex)
                          ocr_regex ocr_result) PACKAGER_CODE;
  Ok (concat per_matcher)
else
  per_matcher ← mapM (fun '(label_tag, ocr_regex) =>
                        matcher_records
                          (label_record label_tag ocr_regex)
                          ocr_regex ocr_result) label_matchers;
  Ok (concat per_matcher).

End Order.
End ExtractionOrder.

(** ** Sample data: the reconciliation example *)

Module Samples.
Import Py Annotate Annotate.ProductInsight.

Definition spellcheck (k : N) (product : string) (s e : Z)
    (state : option Z) : ProductInsight.t :=
  {| id := k; barcode := lit product;
     type := lit "ingredient_spellcheck";
     data := {[ lit "start_offset" := JInt s; lit "end_offset" := JInt e ]};
     annotation := state |}.

(** Pending insights [A] and [B] of product [P]. *)
Definition insight_A := spellcheck 1 "P" 0 5 None.
Definition insight_B := spellcheck 2 "P" 20 26 None.

(** An insight of [P] that was annotated before. *)
Definition insight_D := spellcheck 4 "P" 40 44 (Some 1).

(** A row of [P] and of the right type, without offsets. *)
Definition insight_E : ProductInsight.t :=
  {| id := 5; barcode := lit "P"; type := lit "ingredient_spellcheck";
     data := ∅; annotation := None |}.

(** The accepted insight [C]: its correction is three characters longer
    than its original. *)
Definition insight_C : ProductInsight.t :=
  {| id := 3; barcode := lit "P"; type := lit "ingredient_spellcheck";
     data := {[ lit "correction" := JStr (lit "farine");
                lit "original" := JStr (lit "far");
                lit "start_offset" := JInt 10;
                lit "end_offset" := JInt 13 ]};
     annotation := None |}.

(** The same with a correction as long as the original. *)
Definition insight_C0 : ProductInsight.t :=
  {| id := 3; barcode := lit "P"; type := lit "ingredient_spellcheck";
     data := {[ lit "correction" := JStr (lit "sel");
                lit "original" := JStr (lit "sal") ]};
     annotation := None |}.

Definition table : database :=
  {| rows := [insight_A; insight_B; insight_C; insight_D]; journal := [] |}.

(** A table in which the loop of [annotate] raises after its first
    write. *)
Definition table_E : database :=
  {| rows := [insight_A; insight_E; insight_B]; journal := [] |}.
End Samples.

(** ** Sample data: provider payloads and their documents *)

Module Payloads.
Import Py Re OCR.

(** A response whose full text is the packager code of the
    specification's example. *)
Definition payload_fr : dict :=
  {[ lit "fullTextAnnotation" :=
       JObj {[ lit "text" := JStr (lit "FR 83.400.011 CE") ]} ]}.

Definition doc_fr : OCRResult.t :=
  {| OCRResult.text_annotations := [];
     OCRResult.full_text_annotation :=
       Some {| OCRFullTextAnnotation.text := lit "FR 83.400.011 CE";
               OCRFullTextAnnotation.pages := [];
               OCRFullTextAnnotation.contiguous_text :=
                 lit "FR 83.400.011 CE" |} |}.

(** A response with one text region and no full text. *)
Definition payload_region : dict :=
  {[ lit "textAnnotations" :=
       JArr [ JObj {[ lit "description" := JStr (lit "Abc");
                      lit "boundingPoly" :=
                        JObj {[ lit "vertices" := JArr [] ]} ]} ] ]}.

Definition doc_region : OCRResult.t :=
  {| OCRResult.text_annotations :=
       [ {| OCRTextAnnotation.locale := JNull;
            OCRTextAnnotation.text := JStr (lit "Abc");
            OCRTextAnnotation.bounding_poly := [] |} ];
     OCRResult.full_text_annotation := None |}.

(** A response whose full text has two lines. *)
Definition payload_lines : dict :=
  {[ lit "fullTextAnnotation" :=
       JObj {[ lit "text" := JStr [97%N; 10%N; 98%N] ]} ]}.

Definition doc_lines : OCRResult.t :=
  {| OCRResult.text_annotations := [];
     OCRResult.full_text_annotation :=
       Some {| OCRFullTextAnnotation.text := [97%N; 10%N; 98%N];
               OCRFullTextAnnotation.pages := [];
               OCRFullTextAnnotation.contiguous_text :=
                 [97%N; 32%N; 98%N] |} |}.

(** The matcher [fr_emb] of the packager code category. *)
Definition fr_emb : OCRRegex :=
  {| regex := fr_emb_re;
     field := OCRField.text_annotations;
     lowercase := true;
     processing_func := Some process_fr_emb_match |}.
End Payloads.

(** ** scripts/generate_ocr_insight.py: barcodes, paths and image names *)

Module Script.
Import Py Re OCR.

(** The characters [str.isdigit] accepts beyond Basic Latin (superscript
    digits and the like): a table of the interpreter. *)
Class DigitData := {
  unicode_isdigit : char -> bool
}.

(** The table for text below U+0100: the superscripts two, three and
    one. *)
Definition latin1_digits : DigitData :=
  {| unicode_isdigit := fun c => (c =? 178)%N || (c =? 179)%N || (c =? 185)%N |}.

Section Paths.
Context `{DigitData}.

Definition char_isdigit (c : char) : bool :=
  if is_ascii c then in_range 48%N 57%N c else unicode_isdigit c.

(** [s.isdigit()]: at least one character, and every character a digit. *)
Definition isdigit (s : str) : bool :=
  negb (bool_decide (s = [])) && forallb char_isdigit s.

(** [s[start:stop]] for [0 <= start <= stop]. *)
Definition slice (start stop : nat) (s : str) : str :=
  take (stop - start) (drop start s).

(** [sep.join(xs)] *)
Fixpoint join (sep : str) (xs : list str) : str :=
  match xs with
  | [] => []
  | [x] => x
  | x :: xs' => x ++ sep ++ join sep xs'
  end.

(** [s.split(sep)] for a one-character separator. *)
Fixpoint split (sep : char) (s : str) : list str :=
  match s with
  | [] => [[]]
  | c :: s' =>
      if (c =? sep)%N then [] :: split sep s'
      else match split sep s' with
           | [] => [[c]]
           | w :: ws => (c :: w) :: ws
           end
  end.

(** [pathlib.Path(path)] on a POSIX system: the components of the path
    after its root, that is the pieces between slashes without the empty
    pieces and the pieces [.]. *)
Definition path_components (path : str) : list str :=
  filter (fun x => x ≠ [] ∧ x ≠ lit ".") (split 47%N path).

(** The [name] of each member of [path.parents], nearest parent first. The
    last parent is the root or the empty path, whose name is empty; a path
    without component has no parent. *)
Definition parent_names (path : str) : list str :=
  match reverse (path_components path) with
  | [] => []
  | _ :: above => above ++ [[]]
  end.

(** The loop of [get_barcode_from_path]: it stops at the first name that
    is not made of digits. *)
Fixpoint prepend_digit_names (names : list str) (barcode : str) : str :=
  match names with
  | [] => barcode
  | name :: names' =>
      if isdigit name then prepend_digit_names names' (name ++ barcode)
      else barcode
  end.

Definition get_barcode_from_path (path : str) : option str :=
  let barcode := prepend_digit_names (parent_names path) [] in
  match barcode with
  | [] => None
  | _ => Some barcode
  end.

Definition split_barcode (barcode : str) : result (list str) :=
  if decide (length barcode = 13%nat) then
    Ok [slice 0 3 barcode; slice 3 6 barcode; slice 6 9 barcode;
        slice 9 13 barcode]
  else if decide (length barcode = 8%nat) then Ok [barcode]
  else Raise (ValueError (lit "unknown barcode format: " ++ barcode)).

Definition generate_image_url (barcode image_name : str) : result str :=
  splitted_barcode ← split_barcode barcode;
  let path := lit "/" ++ join (lit "/") splitted_barcode ++ lit "/"
              ++ image_name ++ lit ".json" in
  Ok (lit "https://static.openfoodfacts.org/images/products" ++ path).

Definition is_barcode (text : str) : bool :=
  bool_decide (length text = 13%nat) && isdigit text.

(** [get_source(image_name, json_path, barcode)]. An absent or empty
    [barcode] is read off [str(json_path)]; [split_barcode] then takes the
    length of its argument, which [None] does not have. *)
Definition get_source (image_name : str) (json_path : option str)
    (barcode : option str) : result str :=
  let barcode :=
    match barcode with
    | Some (c :: b) => Some (c :: b)
    | _ => get_barcode_from_path (default (lit "None") json_path)
    end in
  parts ← match barcode with
          | Some b => split_barcode b
          | None => Raise TypeError
          end;
  Ok (lit "/" ++ join (lit "/") parts ++ lit "/" ++ image_name ++ lit ".jpg").

End Paths.
End Script.

(** ** The words of a pattern *)

Module ReLang.
Import Py Re.

Section Lang.
Context `{UnicodeData}.

(** [lang icase r w]: the pattern [r] can consume exactly the word [w]. *)
Fixpoint lang (icase : bool) (r : regex) (w : str) : Prop :=
  match r with
  | Eps => w = []
  | Chars cs => ∃ c, w = [c] ∧ cset_matches icase cs c = true
  | Seq r1 r2 => ∃ w1 w2, w = w1 ++ w2 ∧ lang icase r1 w1 ∧ lang icase r2 w2
  | Alt r1 r2 => lang icase r1 w ∨ lang icase r2 w
  | Group _ r1 => lang icase r1 w
  | Repeat lo hi r1 =>
      ∃ ws, w = concat ws ∧ (lo <= length ws <= hi)%nat
            ∧ Forall (lang icase r1) ws
  end.

(** The least and the greatest length of a word of a pattern. *)
Fixpoint min_len (r : regex) : nat :=
  match r with
  | Eps => 0
  | Chars _ => 1
  | Seq r1 r2 => min_len r1 + min_len r2
  | Alt r1 r2 => min_len r1 `min` min_len r2
  | Group _ r1 => min_len r1
  | Repeat lo _ r1 => lo * min_len r1
  end.

Fixpoint max_len (r : regex) : nat :=
  match r with
  | Eps => 0
  | Chars _ => 1
  | Seq r1 r2 => max_len r1 + max_len r2
  | Alt r1 r2 => max_len r1 `max` max_len r2
  | Group _ r1 => max_len r1
  | Repeat _ hi r1 => hi * max_len r1
  end.


End Lang.
End ReLang.

(** ** Payloads the document constructor accepts *)

Module WellFormed.
Import Py OCR.

(** An item of [textAnnotations] with a description and a bounding polygon
    whose vertices are objects. *)
Definition region (item : json) : Prop :=
  ∃ d poly vertices,
    item = JObj d
    ∧ is_Some (d !! lit "description")
    ∧ d !! lit "boundingPoly" = Some (JObj poly)
    ∧ poly !! lit "vertices" = Some (JArr vertices)
    ∧ Forall (fun vertex => ∃ point, vertex = JObj point) vertices.

(** [textAnnotations] is absent or an array of such items. *)
Definition regions (data : dict) : Prop :=
  match data !! lit "textAnnotations" with
  | None => True
  | Some v => ∃ items, v = JArr items ∧ Forall region items
  end.

(** [fullTextAnnotation] is absent, or tests false, or is an object whose
    [text] is a string. *)
Definition full_text (data : dict) : Prop :=
  match data !! lit "fullTextAnnotation" with
  | None => True
  | Some v =>
      truthy v = false
      ∨ ∃ d text, v = JObj d ∧ d !! lit "text" = Some (JStr text)
  end.

Definition payload (data : dict) : Prop := regions data ∧ full_text data.

(** A value that is a string. *)
Definition is_string (v : json) : Prop := ∃ s, v = JStr s.

(** The text of every region is a string. *)
Definition string_regions (doc : OCRResult.t) (texts : list str) : Prop :=
  map OCRTextAnnotation.text (OCRResult.text_annotations doc)
  = map JStr texts.

End WellFormed.

(** ** Vocabulary of the further statements about [annotate] *)

Module AnnotateSpec.
Import Py Annotate Annotate.ProductInsight.

(** The difference of lengths [annotate] starts with. *)
Definition length_difference (insight : ProductInsight.t) : result Z :=
  correction ← getitem (data insight) (lit "correction");
  len_correction ← len correction;
  original ← getitem (data insight) (lit "original");
  len_original ← len original;
  Ok (len_correction - len_original).


End AnnotateSpec.

(** ** The groups a match captures *)

Module ReGroups.
Import Py Re.

Section Derives.
Context `{UnicodeData}.

(** [derives icase r w new]: the pattern [r] can consume the word [w] and
    then has captured the groups [new], the last captured first. *)
Fixpoint derives (icase : bool) (r : regex) (w : str) (new : captures)
  : Prop :=
  match r with
  | Eps => w = [] ∧ new = []
  | Chars cs => (∃ c, w = [c] ∧ cset_matches icase cs c = true) ∧ new = []
  | Seq r1 r2 =>
      ∃ w1 w2 n1 n2, w = w1 ++ w2 ∧ new = n2 ++ n1
                     ∧ derives icase r1 w1 n1 ∧ derives icase r2 w2 n2
  | Alt r1 r2 => derives icase r1 w new ∨ derives icase r2 w new
  | Group i r1 => ∃ n1, new = (i, w) :: n1 ∧ derives icase r1 w n1
  | Repeat lo hi r1 =>
      ∃ ws ns, w = concat ws ∧ new = concat (reverse ns)
               ∧ (lo <= length ws <= hi)%nat
               ∧ Forall2 (derives icase r1) ws ns
  end.

End Derives.
End ReGroups.

(** ** Further sample data *)

Module MoreSamples.
Import Py Re OCR Annotate Annotate.ProductInsight Samples Payloads.

Definition barcode13 : str := lit "3017620422003".

(** One region item, as the provider sends it. *)
Definition region_item (description : string) : json :=
  JObj {[ lit "description" := JStr (lit description);
          lit "boundingPoly" :=
            JObj {[ lit "vertices" :=
                      JArr [ JObj {[ lit "x" := JInt 3 ]} ] ]} ]}.

(** A response with two regions, the second with a packager code. *)
Definition payload_emb : dict :=
  {[ lit "textAnnotations" :=
       JArr [region_item "Sel"; region_item "EMB 29 155a"] ]}.

Definition region_of (description : string) : OCRTextAnnotation.t :=
  {| OCRTextAnnotation.locale := JNull;
     OCRTextAnnotation.text := JStr (lit description);
     OCRTextAnnotation.bounding_poly := [(JInt 3, JInt 0)] |}.

Definition doc_emb : OCRResult.t :=
  {| OCRResult.text_annotations := [region_of "Sel"; region_of "EMB 29 155a"];
     OCRResult.full_text_annotation := None |}.

(** A document with a label claim in its full text and a control body
    code in a region. *)
Definition doc_label : OCRResult.t :=
  {| OCRResult.text_annotations := [region_of "FR-BIO-01"];
     OCRResult.full_text_annotation :=
       Some {| OCRFullTextAnnotation.text := lit "certifie ab.";
               OCRFullTextAnnotation.pages := [];
               OCRFullTextAnnotation.contiguous_text :=
                 lit "certifie ab." |} |}.

(** A response whose second region has no description. *)
Definition payload_no_description : dict :=
  {[ lit "textAnnotations" :=
       JArr [region_item "Sel";
             JObj {[ lit "boundingPoly" := JObj ∅ ]}] ]}.

(** A response whose full text annotation has no text. *)
Definition payload_no_text : dict :=
  {[ lit "fullTextAnnotation" := JObj {[ lit "pages" := JArr [] ]} ]}.

(** A document with a region whose description is a number. *)
Definition doc_number : OCRResult.t :=
  {| OCRResult.text_annotations :=
       [ {| OCRTextAnnotation.locale := JNull;
            OCRTextAnnotation.text := JInt 7;
            OCRTextAnnotation.bounding_poly := [] |} ];
     OCRResult.full_text_annotation := None |}.

(** The matcher [eu_fr] of the packager code category. *)
Definition eu_fr : OCRRegex :=
  {| regex := eu_fr_re;
     field := OCRField.full_text_contiguous;
     lowercase := true;
     processing_func := Some process_fr_packaging_match |}.

(** The insight [C] annotated back: its correction is three characters
    shorter than its original. *)
Definition insight_C_back : ProductInsight.t :=
  {| id := 3; barcode := lit "P"; type := lit "ingredient_spellcheck";
     data := {[ lit "correction" := JStr (lit "far");
                lit "original" := JStr (lit "farine") ]};
     annotation := None |}.

(** An insight without correction. *)
Definition insight_F : ProductInsight.t :=
  {| id := 6; barcode := lit "P"; type := lit "ingredient_spellcheck";
     data := ∅; annotation := None |}.

(** An insight of another product. *)
Definition insight_Q := spellcheck 7 "Q" 1 4 None.

Definition table_Q : database :=
  {| rows := [insight_A; insight_Q; insight_C; insight_B]; journal := [] |}.

Definition table_Q_after : database :=
  {| rows := [spellcheck 1 "P" 3 8 None; insight_Q; insight_C;
              spellcheck 2 "P" 23 29 None];
     journal := [1%N; 2%N] |}.




(** The matcher of the label [xx-bio-xx]. *)
Definition bio_label : OCRRegex :=
  {| regex := Compile
       (seq [Group 1 (Repeat 2 2
                (Chars [CRange (of_ascii "A") (of_ascii "Z")]));
             dash_space_dot;
             Group 2 (Alt (text "BIO")
                          (seq [Chars [CChar 214%N]; text "KO"]));
             dash_space_dot;
             Group 3 (Repeat 2 3 d)])
       false;
     field := OCRField.text_annotations;
     lowercase := false;
     processing_func := Some process_eu_bio_label_code |}.

End MoreSamples.
(** ** Properties of the annotators *)

Section AnnotateFacts.
Import Py Annotate Annotate.ProductInsight.
Import IngredientSpellcheckAnnotator Reconciliation.

Implicit Types (other insight : ProductInsight.t) (db : database).

Lemma iadd_fields other key d other' :
  iadd other key d = Ok other' →
  id other' = id other ∧ barcode other' = barcode other
  ∧ type other' = type other ∧ annotation other' = annotation other.
Proof.
  unfold iadd, getitem.
  destruct (data other !! key) as [v|]; simpl; [|discriminate].
  destruct (add_int v d); simpl; [|discriminate].
  intros [= <-]. done.
Qed.

Lemma shift_fields d other other' :
  shift d other = Ok other' →
  id other' = id other ∧ barcode other' = barcode other
  ∧ type other' = type other ∧ annotation other' = annotation other.
Proof.
  unfold shift.
  destruct (iadd other (lit "start_offset") d) as [o1|] eqn:E1; simpl;
    [|discriminate].
  intros E2.
  apply iadd_fields in E1 as (? & ? & ? & ?).
  apply iadd_fields in E2 as (? & ? & ? & ?).
  repeat split; congruence.
Qed.

Lemma shifted_id d other : id (shifted d other) = id other.
Proof.
  unfold shifted. destruct (shift d other) eqn:E; [|done].
  by apply shift_fields in E as (-> & _).
Qed.

Lemma offsets_ne : lit "start_offset" ≠ lit "end_offset".
Proof. discriminate. Qed.

Lemma shift_offsets d other s e :
  data other !! lit "start_offset" = Some (JInt s) →
  data other !! lit "end_offset" = Some (JInt e) →
  shift d other =
    Ok (set_data other (<[lit "end_offset" := JInt (e + d)]>
                          (<[lit "start_offset" := JInt (s + d)]>
                             (data other)))).
Proof.
  intros Hs He. unfold shift, iadd, getitem. rewrite Hs. cbn -[lit].
  rewrite lookup_insert_ne by apply offsets_ne. rewrite He. done.
Qed.

Lemma writer_None l r : id r ∉ map id l → writer l r = None.
Proof.
  induction l as [|a l IH]; simpl; [done|].
  intros Hn. rewrite not_elem_of_cons in Hn. destruct Hn as [Ha Hl].
  rewrite bool_decide_eq_false_2 by congruence. auto.
Qed.

(** In a table with a primary key, the selected row that overwrites a row
    of the table is that row. *)
Lemma writer_filter (P : ProductInsight.t → bool) l r :
  NoDup (map id l) → r ∈ l →
  writer (filter P l) r = if P r then Some r else None.
Proof.
  induction l as [|a l IH]; simpl; intros Hnd Hin.
  - by apply elem_of_nil in Hin.
  - apply NoDup_cons in Hnd as [Ha Hnd].
    assert (Hsub : ∀ x, x ∉ map id l → x ∉ map id (filter P l)).
    { intros x Hx Hx'. apply Hx.
      apply list_elem_of_In, in_map_iff in Hx' as (y & <- & Hy).
      apply list_elem_of_In, list_elem_of_filter in Hy as [_ Hy].
      apply list_elem_of_In, in_map, list_elem_of_In. done. }
    apply elem_of_cons in Hin as [->|Hin].
    + rewrite filter_cons. destruct (decide (P a)) as [Hp|Hp].
      * simpl. rewrite bool_decide_eq_true_2 by done.
        by destruct (P a).
      * rewrite writer_None by auto. by destruct (P a).
    + assert (id a ≠ id r).
      { intros Heq. apply Ha. rewrite Heq.
        apply list_elem_of_In, in_map, list_elem_of_In. done. }
      rewrite filter_cons. destruct (decide (P a)); simpl.
      * rewrite bool_decide_eq_false_2 by done. auto.
      * auto.
Qed.

(** When every [shift] succeeds the loop overwrites each row of the table
    that has the key of a selected row, and journals one write per
    selected row. *)
Lemma for_each_shift_and_save d l db :
  NoDup (map id l) →
  (∀ o, o ∈ l → ∃ o', shift d o = Ok o') →
  for_each l (shift_and_save d) db =
    (Ok (),
     {| rows := map (fun r => match writer l r with
                              | Some o => shifted d o
                              | None => r
                              end) (rows db);
        journal := journal db ++ map id l |}).
Proof.
  revert db. induction l as [|o l IH]; intros db Hnd Hok; simpl.
  - unfold mret, action_ret. destruct db as [R J]. simpl.
    rewrite app_nil_r. f_equal. f_equal.
    induction R; simpl; congruence.
  - apply NoDup_cons in Hnd as [Ho Hnd].
    destruct (Hok o) as [o' Ho']; [by left|].
    unfold mbind, action_bind, shift_and_save at 1, pure, save.
    unfold mbind, action_bind. rewrite Ho'. simpl.
    rewrite IH; [|done|intros; apply Hok; by right].
    simpl. f_equal. f_equal.
    + rewrite map_map. apply map_ext. intros r.
      destruct (shift_fields _ _ _ Ho') as (Hid & _).
      destruct (decide (id r = id o')) as [Heq|Hne].
      * rewrite writer_None by (rewrite Hid; done).
        rewrite bool_decide_eq_true_2 by congruence.
        unfold shifted. by rewrite Ho'.
      * rewrite bool_decide_eq_false_2 by congruence. done.
    + rewrite <- app_assoc. simpl.
      by destruct (shift_fields _ _ _ Ho') as (-> & _).
Qed.

(** The loop ends normally only if every [shift] succeeded, and raises
    the exception of a [shift] that failed. *)
Lemma for_each_shift_and_save_inv d l db r db' :
  for_each l (shift_and_save d) db = (r, db') →
  match r with
  | Ok _ => ∀ o, o ∈ l → ∃ o', shift d o = Ok o'
  | Raise e => ∃ o, o ∈ l ∧ shift d o = Raise e
  end.
Proof.
  revert db. induction l as [|o l IH]; intros db; simpl.
  - intros [= <- <-]. intros o Ho. by apply elem_of_nil in Ho.
  - unfold mbind, action_bind, shift_and_save at 1, pure.
    unfold mbind, action_bind.
    destruct (shift d o) as [o'|e] eqn:Eo; simpl.
    + intros Hrest. apply IH in Hrest. destruct r.
      * intros x [->|Hx]%elem_of_cons; eauto.
      * destruct Hrest as (x & Hx & Hs). exists x. split; [by right|done].
    + intros [= <- <-]. exists o. split; [by left|done].
Qed.

Lemma others_sibling insight other :
  others (barcode insight) (id insight) other = true ↔ sibling insight other.
Proof.
  unfold others, sibling.
  rewrite !andb_true_iff, !bool_decide_eq_true. tauto.
Qed.

(** What [annotate] does once the two lengths are known. *)
Lemma annotate_unfold insight db corr orig :
  data insight !! lit "correction" = Some (JStr corr) →
  data insight !! lit "original" = Some (JStr orig) →
  annotate insight db =
    if decide (Z.of_nat (length corr) - Z.of_nat (length orig) = 0)
    then (Ok (), db)
    else atomic (update_others (barcode insight) (id insight)
                   (Z.of_nat (length corr) - Z.of_nat (length orig))) db.
Proof.
  intros Hc Ho. unfold annotate, getitem. rewrite Hc, Ho.
  unfold mbind at 1, action_bind, pure. cbn -[lit Z.sub Z.of_nat].
  by destruct (decide _).
Qed.

(** The table after a loop in which no [shift] raised. *)
Lemma update_others_rows insight d db :
  primary_key db →
  (∀ o, o ∈ rows db → sibling insight o → ∃ o', shift d o = Ok o') →
  update_others (barcode insight) (id insight) d db =
    (Ok (),
     {| rows := map (fun r => if others (barcode insight) (id insight) r
                              then shifted d r else r) (rows db);
        journal := journal db
                   ++ map id (filter (others (barcode insight) (id insight))
                                     (rows db)) |}).
Proof.
  intros Hpk Hok. unfold update_others, select_where.
  unfold mbind, action_bind.
  rewrite for_each_shift_and_save.
  - f_equal. f_equal. apply map_ext_in. intros r Hr.
    rewrite writer_filter by (done || by apply list_elem_of_In).
    by destruct (others _ _ r).
  - unfold primary_key in Hpk. clear Hok.
    induction (rows db) as [|a l IH]; simpl; [constructor|].
    apply NoDup_cons in Hpk as [Ha Hnd].
    rewrite filter_cons. destruct (decide _); simpl; [|auto].
    apply NoDup_cons. split; [|auto].
    intros Hin. apply Ha.
    apply list_elem_of_In, in_map_iff in Hin as (y & <- & Hy).
    apply list_elem_of_In, list_elem_of_filter in Hy as [_ Hy].
    apply list_elem_of_In, in_map, list_elem_of_In. done.
  - intros o [Hsel Ho]%list_elem_of_filter. apply Hok; [done|].
    apply others_sibling. by apply Is_true_eq_true.
Qed.

(** The writes of the loop keep the primary key unique. *)
Lemma primary_key_shifted (P : ProductInsight.t → bool) d db J :
  primary_key db →
  primary_key {| rows := map (fun r => if P r then shifted d r else r)
                             (rows db);
                 journal := J |}.
Proof.
  unfold primary_key. simpl. intros Hpk.
  rewrite map_map.
  erewrite map_ext; [exact Hpk|].
  intros r. simpl. destruct (P r); [|done]. apply shifted_id.
Qed.

End AnnotateFacts.

Section Reconciling.
Import Py Annotate Annotate.ProductInsight.
Import IngredientSpellcheckAnnotator Reconciliation.

Implicit Types (other insight : ProductInsight.t) (db : database).

(** What the loop leaves of a row with integer offsets. *)
Lemma shifted_row d other s e :
  data other !! lit "start_offset" = Some (JInt s) →
  data other !! lit "end_offset" = Some (JInt e) →
  id (shifted d other) = id other
  ∧ data (shifted d other) !! lit "start_offset" = Some (JInt (s + d))
  ∧ data (shifted d other) !! lit "end_offset" = Some (JInt (e + d))
  ∧ (∀ k, k ≠ lit "start_offset" → k ≠ lit "end_offset" →
          data (shifted d other) !! k = data other !! k)
  ∧ barcode (shifted d other) = barcode other
  ∧ type (shifted d other) = type other
  ∧ annotation (shifted d other) = annotation other.
Proof.
  intros Hs He. unfold shifted. rewrite (shift_offsets d other s e Hs He).
  cbn -[lit]. repeat split.
  - rewrite lookup_insert_ne by (symmetry; apply offsets_ne).
    by rewrite lookup_insert_eq.
  - by rewrite lookup_insert_eq.
  - intros k Hk1 Hk2. by rewrite !lookup_insert_ne.
Qed.

(** With a length difference that is not zero and offsets on every
    sibling, [annotate] ends normally and leaves the table with every
    sibling replaced by its shifted row. *)
Lemma annotate_rows insight db corr orig :
  primary_key db →
  data insight !! lit "correction" = Some (JStr corr) →
  data insight !! lit "original" = Some (JStr orig) →
  Z.of_nat (length corr) - Z.of_nat (length orig) ≠ 0 →
  (∀ o, o ∈ rows db → sibling insight o → has_offsets o) →
  annotate insight db =
    (Ok (),
     {| rows :=
          map (fun r => if others (barcode insight) (id insight) r
                        then shifted
                               (Z.of_nat (length corr)
                                - Z.of_nat (length orig)) r
                        else r) (rows db);
        journal :=
          journal db
          ++ map id (filter (others (barcode insight) (id insight))
                            (rows db)) |}).
Proof.
  intros Hpk Hc Ho Hd Hoff.
  rewrite (annotate_unfold insight db corr orig Hc Ho).
  destruct (decide _) as [|_]; [done|].
  unfold atomic. rewrite update_others_rows; [done|done|].
  intros o Hin Hsib. destruct (Hoff o Hin Hsib) as (s & e & Hs & He).
  eexists. by apply shift_offsets.
Qed.

(** C3. When the accepted correction and its original differ in length by
    [delta ≠ 0], [annotate] ends normally and every other pending insight
    of the same barcode and of type [ingredient_spellcheck] is stored with
    [start_offset] and [end_offset] both moved by exactly [delta]; the
    other entries of its data, its key, barcode, type and annotation
    state are as before. The table has a primary key and the insights of
    that product and type carry integer offsets. *)
Theorem annotate_shifts_pending_siblings insight db corr orig :
  primary_key db →
  data insight !! lit "correction" = Some (JStr corr) →
  data insight !! lit "original" = Some (JStr orig) →
  Z.of_nat (length corr) - Z.of_nat (length orig) ≠ 0 →
  (∀ o, o ∈ rows db → sibling insight o → has_offsets o) →
  ∃ db',
    annotate insight db = (Ok (), db')
    ∧ primary_key db'
    ∧ ∀ other s e,
        other ∈ rows db → sibling insight other →
        annotation other = None →
        data other !! lit "start_offset" = Some (JInt s) →
        data other !! lit "end_offset" = Some (JInt e) →
        ∃ other',
          other' ∈ rows db'
          ∧ id other' = id other
          ∧ data other' !! lit "start_offset"
            = Some (JInt (s + (Z.of_nat (length corr)
                               - Z.of_nat (length orig))))
          ∧ data other' !! lit "end_offset"
            = Some (JInt (e + (Z.of_nat (length corr)
                               - Z.of_nat (length orig))))
          ∧ (∀ k, k ≠ lit "start_offset" → k ≠ lit "end_offset" →
                  data other' !! k = data other !! k)
          ∧ barcode other' = barcode other
          ∧ type other' = type other
          ∧ annotation other' = annotation other.
Proof.
  intros Hpk Hc Ho Hd Hoff. eexists. split; [|split].
  - by apply (annotate_rows insight db corr orig).
  - by apply primary_key_shifted.
  - intros other s e Hin Hsib _ Hs He. simpl.
    exists (shifted (Z.of_nat (length corr) - Z.of_nat (length orig)) other).
    split; [|by apply shifted_row].
    apply list_elem_of_In, in_map_iff. exists other.
    split; [|by apply list_elem_of_In].
    apply others_sibling in Hsib. by rewrite Hsib.
Qed.

(** C10. The query of [annotate] reads the barcode, the key and the type
    of a row and nothing else, so a row is selected whatever its
    annotation state; when the length difference [delta] is not zero,
    every other insight of the product and of type
    [ingredient_spellcheck], annotated before or not, is stored with both
    offsets moved by [delta]. *)
Theorem annotate_shifts_annotated_siblings insight db corr orig :
  primary_key db →
  data insight !! lit "correction" = Some (JStr corr) →
  data insight !! lit "original" = Some (JStr orig) →
  Z.of_nat (length corr) - Z.of_nat (length orig) ≠ 0 →
  (∀ o, o ∈ rows db → sibling insight o → has_offsets o) →
  (∀ o1 o2, id o1 = id o2 → barcode o1 = barcode o2 → type o1 = type o2 →
            others (barcode insight) (id insight) o1
            = others (barcode insight) (id insight) o2)
  ∧ ∃ db',
      annotate insight db = (Ok (), db')
      ∧ ∀ other state s e,
          other ∈ rows db → sibling insight other →
          annotation other = state →
          data other !! lit "start_offset" = Some (JInt s) →
          data other !! lit "end_offset" = Some (JInt e) →
          ∃ other',
            other' ∈ rows db'
            ∧ id other' = id other
            ∧ annotation other' = state
            ∧ data other' !! lit "start_offset"
              = Some (JInt (s + (Z.of_nat (length corr)
                                 - Z.of_nat (length orig))))
            ∧ data other' !! lit "end_offset"
              = Some (JInt (e + (Z.of_nat (length corr)
                                 - Z.of_nat (length orig)))).
Proof.
  intros Hpk Hc Ho Hd Hoff. split.
  - intros o1 o2 Hi Hb Ht. unfold others. by rewrite Hi, Hb, Ht.
  - eexists. split; [by apply (annotate_rows insight db corr orig)|].
    intros other state s e Hin Hsib Hst Hs He. simpl.
    exists (shifted (Z.of_nat (length corr) - Z.of_nat (length orig)) other).
    destruct (shifted_row (Z.of_nat (length corr) - Z.of_nat (length orig))
                other s e Hs He) as (Hid & Hs' & He' & _ & _ & _ & Ha).
    repeat split; try done; [|congruence].
    apply list_elem_of_In, in_map_iff. exists other.
    split; [|by apply list_elem_of_In].
    apply others_sibling in Hsib. by rewrite Hsib.
Qed.

(** C5. When the correction is as long as the original, [annotate]
    returns at once: the table and the journal of writes after the call
    are the ones before it. *)
Theorem annotate_same_length insight db corr orig :
  data insight !! lit "correction" = Some (JStr corr) →
  data insight !! lit "original" = Some (JStr orig) →
  length corr = length orig →
  annotate insight db = (Ok (), db).
Proof.
  intros Hc Ho Hlen.
  rewrite (annotate_unfold insight db corr orig Hc Ho).
  destruct (decide _) as [|Hne]; [done|]. lia.
Qed.

(** C4. For a length difference [delta ≠ 0] the update of the siblings is
    all or nothing: either [annotate] ends normally and every sibling is
    stored shifted, or it raises and the table is the one before the
    call. *)
Theorem annotate_atomic insight db corr orig r db' :
  primary_key db →
  data insight !! lit "correction" = Some (JStr corr) →
  data insight !! lit "original" = Some (JStr orig) →
  Z.of_nat (length corr) - Z.of_nat (length orig) ≠ 0 →
  annotate insight db = (r, db') →
  (r = Ok ()
   ∧ ∀ other, other ∈ rows db → sibling insight other →
       ∃ other',
         shift (Z.of_nat (length corr) - Z.of_nat (length orig)) other
         = Ok other'
         ∧ other' ∈ rows db')
  ∨ (∃ e, r = Raise e ∧ rows db' = rows db).
Proof.
  intros Hpk Hc Ho Hd.
  rewrite (annotate_unfold insight db corr orig Hc Ho).
  destruct (decide _) as [|_]; [done|].
  set (d := Z.of_nat (length corr) - Z.of_nat (length orig)).
  unfold atomic.
  destruct (update_others (barcode insight) (id insight) d db)
    as [[[]|e] db1] eqn:Hrun.
  - intros [= <- <-]. left. split; [done|].
    assert (Hall : ∀ o, o ∈ rows db → sibling insight o →
                        ∃ o', shift d o = Ok o').
    { unfold update_others, select_where, mbind, action_bind in Hrun.
      apply for_each_shift_and_save_inv in Hrun.
      intros o Hin Hsib. apply Hrun. apply list_elem_of_filter.
      split; [|done]. apply Is_true_true. by apply others_sibling. }
    rewrite (update_others_rows insight d db Hpk Hall) in Hrun.
    injection Hrun as <-.
    intros other Hin Hsib. destruct (Hall other Hin Hsib) as [other' Hs].
    exists other'. split; [done|]. simpl.
    apply list_elem_of_In, in_map_iff. exists other.
    split; [|by apply list_elem_of_In].
    apply others_sibling in Hsib. rewrite Hsib.
    unfold shifted. by rewrite Hs.
  - intros [= <- <-]. right. by exists e.
Qed.

End Reconciling.

Section ReconcilingSamples.
Import Py Annotate Annotate.ProductInsight.
Import IngredientSpellcheckAnnotator Reconciliation Samples.

Lemma table_primary_key : primary_key table.
Proof. apply (bool_decide_unpack _). by vm_compute. Qed.

Lemma table_E_primary_key : primary_key table_E.
Proof. apply (bool_decide_unpack _). by vm_compute. Qed.

Lemma table_offsets o :
  o ∈ rows table → sibling insight_C o → has_offsets o.
Proof.
  intros Hin Hsib. simpl in Hin.
  repeat (apply elem_of_cons in Hin as [->|Hin]);
    try (by apply elem_of_nil in Hin).
  - by exists 0, 5.
  - by exists 20, 26.
  - by destruct Hsib as (_ & Hne & _).
  - by exists 40, 44.
Qed.

(** Accepting [C] moves the pending insight [A] from [0, 5) to
    [3, 8). *)
Lemma annotate_shifts_pending_siblings_witness :
  ∃ db' a',
    annotate insight_C table = (Ok (), db')
    ∧ a' ∈ rows db' ∧ id a' = 1%N
    ∧ data a' !! lit "start_offset" = Some (JInt 3)
    ∧ data a' !! lit "end_offset" = Some (JInt 8).
Proof.
  destruct (annotate_shifts_pending_siblings insight_C table
              (lit "farine") (lit "far"))
    as (db' & Hrun & _ & Hall).
  - exact table_primary_key.
  - reflexivity.
  - reflexivity.
  - discriminate.
  - exact table_offsets.
  - destruct (Hall insight_A 0 5) as (a' & Hin & Hid & Hs & He & _).
    + by left.
    + by repeat split.
    + reflexivity.
    + reflexivity.
    + reflexivity.
    + by exists db', a'.
Defined.

(** Accepting [C] moves the insight [D], annotated before, from
    [40, 44) to [43, 47). *)
Lemma annotate_shifts_annotated_siblings_witness :
  ∃ db' d',
    annotate insight_C table = (Ok (), db')
    ∧ d' ∈ rows db' ∧ id d' = 4%N ∧ annotation d' = Some 1
    ∧ data d' !! lit "start_offset" = Some (JInt 43)
    ∧ data d' !! lit "end_offset" = Some (JInt 47).
Proof.
  destruct (annotate_shifts_annotated_siblings insight_C table
              (lit "farine") (lit "far"))
    as (_ & db' & Hrun & Hall).
  - exact table_primary_key.
  - reflexivity.
  - reflexivity.
  - discriminate.
  - exact table_offsets.
  - destruct (Hall insight_D (Some 1) 40 44)
      as (d' & Hin & Hid & Ha & Hs & He).
    + set_solver.
    + by repeat split.
    + reflexivity.
    + reflexivity.
    + reflexivity.
    + by exists db', d'.
Defined.

(** Accepting a correction as long as its original leaves the table and
    the journal as they were. *)
Lemma annotate_same_length_witness :
  annotate insight_C0 table = (Ok (), table).
Proof.
  apply (annotate_same_length insight_C0 table (lit "sel") (lit "sal"));
    reflexivity.
Defined.

(** Run without the transaction, the loop over [table_E] raises at the
    row without offsets and leaves [A] shifted and [B] not. *)
Example update_others_partial :
  ∃ db',
    update_others (lit "P") 3 3 table_E
    = (Raise (KeyError (lit "start_offset")), db')
    ∧ (data <$> rows db' !! 0%nat) ≫= (.!! lit "start_offset")
      = Some (JInt 3)
    ∧ rows db' !! 2%nat = Some insight_B.
Proof. eexists. split; [by vm_compute|]. by vm_compute. Qed.

(** On [table_E] the call raises and the table is the one before. *)
Lemma annotate_atomic_witness :
  ∃ e db',
    annotate insight_C table_E = (Raise e, db')
    ∧ rows db' = rows table_E.
Proof.
  assert (Hrun : annotate insight_C table_E
                 = (Raise (KeyError (lit "start_offset")),
                    {| rows := rows table_E; journal := [1%N] |}))
    by (by vm_compute).
  destruct (annotate_atomic insight_C table_E (lit "farine") (lit "far")
              _ _ table_E_primary_key eq_refl eq_refl
              ltac:(discriminate) Hrun)
    as [[Hok _]|(e & He & Hrows)].
  - discriminate Hok.
  - exists e. eexists. split; [|exact Hrows]. by rewrite Hrun, He.
Defined.

End ReconcilingSamples.

(** ** Properties of the extraction *)

Section Loops.
Import Py.

(** A loop that appends what its body computes from each item collects,
    in order, what [mapM] collects. *)
Lemma for_append {A B} (f : A → result (list B))
    (body : A → list B → result (list B)) (xs : list A) (acc : list B) :
  (∀ x acc, body x acc = ys ← f x; Ok (acc ++ ys)) →
  for_ xs body acc = yss ← mapM f xs; Ok (acc ++ concat yss).
Proof.
  intros Hbody. revert acc.
  induction xs as [|x xs IH]; intros acc; simpl.
  - by rewrite app_nil_r.
  - rewrite Hbody. destruct (f x) as [ys|e]; simpl; [|done].
    rewrite IH. destruct (mapM f xs) as [yss|e]; simpl; [|done].
    by rewrite app_assoc.
Qed.

(** The same for a body that appends one item. *)
Lemma for_append1 {A B} (f : A → result B)
    (body : A → list B → result (list B)) (xs : list A) (acc : list B) :
  (∀ x acc, body x acc = y ← f x; Ok (acc ++ [y])) →
  for_ xs body acc = ys ← mapM f xs; Ok (acc ++ ys).
Proof.
  intros Hbody. revert acc.
  induction xs as [|x xs IH]; intros acc; simpl.
  - by rewrite app_nil_r.
  - rewrite Hbody. destruct (f x) as [y|e]; simpl; [|done].
    rewrite IH. destruct (mapM f xs) as [ys|e]; simpl; [|done].
    by rewrite <- app_assoc.
Qed.

(** [mapM] over a flattened list of lists. *)
Lemma mapM_flat_map {A B C} (g : A → list B) (f : B → result (list C))
    (xs : list A) :
  (yss ← mapM f (flat_map g xs); Ok (concat yss))
  = (zss ← mapM (fun x => yss ← mapM f (g x); Ok (concat yss)) xs;
     Ok (concat zss)).
Proof.
  induction xs as [|x xs IH]; simpl; [done|].
  revert IH. generalize (flat_map g xs) as rest. intros rest IH.
  induction (g x) as [|b bs IHb]; simpl.
  - rewrite IH.
    by destruct (mapM (λ x0, yss ← mapM f (g x0); Ok (concat yss)) xs).
  - destruct (f b) as [c|e]; simpl; [|done].
    revert IHb.
    destruct (mapM f (bs ++ rest)) as [l1|e1], (mapM f bs) as [l2|e2];
      match goal with
      | |- context [mapM ?h xs] => destruct (mapM h xs) as [l3|e3]
      end; simpl; intros Heq; simplify_eq; try done.
    by rewrite Heq, app_assoc.
Qed.

End Loops.

Section ExtractionFacts.
Import Py Re OCR ExtractionOrder.
Context `{UnicodeData}.

(** The two inner loops of the extraction functions, for one matcher. *)
Lemma matcher_loop (record : Match → result dict)
    (body : Match → list dict → result (list dict))
    (ocr_regex : OCRRegex) (ocr_result : OCRResult.t) (acc : list dict) :
  (∀ m acc, body m acc = y ← record m; Ok (acc ++ [y])) →
  (texts ← OCRResult.get_text ocr_result ocr_regex;
   for_ texts
     (fun text results =>
        matches ← finditer (regex ocr_regex) text;
        for_ matches body results) acc)
  = ys ← matcher_records record ocr_regex ocr_result; Ok (acc ++ ys).
Proof.
  intros Hbody. unfold matcher_records.
  destruct (OCRResult.get_text ocr_result ocr_regex) as [texts|e];
    simpl; [|done].
  rewrite (for_append
             (fun text => matches ← finditer (regex ocr_regex) text;
                          mapM record matches)).
  - by destruct (mapM _ texts).
  - intros text acc'.
    destruct (finditer (regex ocr_regex) text) as [ms|e]; simpl; [|done].
    by apply for_append1.
Qed.

Lemma find_packager_codes_ordered ocr_result :
  find_packager_codes ocr_result
  = ordered_records ocr_result (lit "packager_code").
Proof.
  unfold find_packager_codes, ordered_records.
  rewrite decide_True by done.
  rewrite (for_append
             (fun '(regex_code, ocr_regex) =>
                matcher_records (packager_code_record regex_code ocr_regex)
                  ocr_regex ocr_result)).
  - by destruct (mapM _ PACKAGER_CODE).
  - intros [regex_code ocr_regex] acc.
    apply matcher_loop. intros m acc'. unfold packager_code_record.
    destruct (processing_func ocr_regex) as [f|]; simpl; [|done].
    by destruct (f m).
Qed.

Lemma mapM_map {A B C} (g : A → B) (f : B → result C) (xs : list A) :
  mapM f (map g xs) = mapM (fun x => f (g x)) xs.
Proof. induction xs as [|x xs IH]; simpl; [done|]. by rewrite IH. Qed.

Lemma find_labels_ordered ocr_result :
  find_labels ocr_result = ordered_records ocr_result (lit "label").
Proof.
  unfold find_labels, ordered_records.
  rewrite decide_False by discriminate.
  unfold label_matchers.
  rewrite (mapM_flat_map
             (fun '(label_tag, regex_list) =>
                map (fun ocr_regex => (label_tag, ocr_regex)) regex_list)
             (fun '(label_tag, ocr_regex) =>
                matcher_records (label_record label_tag ocr_regex)
                  ocr_regex ocr_result)).
  rewrite (for_append
             (fun '(label_tag, regex_list) =>
                yss ← mapM (fun '(label_tag, ocr_regex) =>
                              matcher_records
                                (label_record label_tag ocr_regex)
                                ocr_regex ocr_result)
                           (map (fun ocr_regex => (label_tag, ocr_regex))
                                regex_list);
                Ok (concat yss))).
  - by destruct (mapM _ LABELS_REGEX).
  - intros [label_tag regex_list] acc. rewrite mapM_map.
    rewrite (for_append
               (fun ocr_regex =>
                  matcher_records (label_record label_tag ocr_regex)
                    ocr_regex ocr_result)); [by destruct (mapM _ regex_list)|].
    intros ocr_regex acc'.
    apply matcher_loop. intros m acc''. unfold label_record.
    destruct (processing_func ocr_regex) as [f|]; simpl; [|done].
    by destruct (f m).
Qed.

(** C9. For a registered category, two calls of [extract_insights] on the
    same document give the same outcome, and the records come matcher
    after matcher in the order of the registry, for each matcher
    candidate after candidate in the order of [get_text], and for each
    candidate in the order the matches are found. *)
Theorem extract_insights_deterministic_ordered ocr_result insight_type :
  registered insight_type →
  (∀ first second,
      extract_insights ocr_result insight_type = first →
      extract_insights ocr_result insight_type = second →
      first = second)
  ∧ extract_insights ocr_result insight_type
    = ordered_records ocr_result insight_type.
Proof.
  intros Hreg. split; [congruence|].
  unfold extract_insights. destruct Hreg as [->| ->].
  - rewrite decide_True by done. apply find_packager_codes_ordered.
  - rewrite decide_False by discriminate. rewrite decide_True by done.
    apply find_labels_ordered.
Qed.

End ExtractionFacts.

Section DocumentFacts.
Import Py Re OCR ExtractionOrder Payloads.
Import Annotate.
Context `{UnicodeData}.

Lemma replace_one old new s :
  replace old [new] s = map (fun c => if (c =? old)%N then new else c) s.
Proof.
  unfold replace. induction s as [|c s IH]; simpl; [done|].
  rewrite IH. by destruct (c =? old)%N.
Qed.

(** With [lowercase] the generator yields twice per region. *)
Lemma iter_text_annotations_lowercase_length self l :
  OCRResult.iter_text_annotations self true = Ok l →
  length l = (2 * length (OCRResult.text_annotations self))%nat.
Proof.
  unfold OCRResult.iter_text_annotations.
  assert (Hgen : ∀ xs acc l,
             for_ xs
               (fun text_annotation yielded =>
                  yielded ←
                    (low ← lower_method
                             (OCRTextAnnotation.text text_annotation);
                     Ok (yielded ++ [low]));
                  Ok (yielded ++ [OCRTextAnnotation.text text_annotation]))
               acc = Ok l →
             length l = (length acc + 2 * length xs)%nat).
  { induction xs as [|x xs IH]; intros acc l'; simpl.
    - intros [= <-]. lia.
    - destruct (lower_method (OCRTextAnnotation.text x)) as [low|e]; simpl;
        [|discriminate].
      intros Hrest. apply IH in Hrest. rewrite !length_app in Hrest.
      simpl in Hrest. lia. }
  intros Hl. apply Hgen in Hl. simpl in Hl. lia.
Qed.

(** C6. An insight type other than the two [extract_insights] tests for
    makes it raise the [ValueError] ``unknown insight type'', whatever the
    document, and an identifier that is not a key of the annotator mapping
    makes [InsightAnnotatorFactory.create] raise the [ValueError]
    ``unknown annotator''; neither answers an empty result. *)
Theorem unregistered_identifier_raises ocr_result identifier :
  (¬ registered identifier →
   extract_insights ocr_result identifier
   = Raise (ValueError (lit "unknown insight type: " ++ identifier)))
  ∧ (InsightAnnotatorFactory.mapping !! identifier = None →
     InsightAnnotatorFactory.create identifier
     = Raise (ValueError (lit "unknown annotator: " ++ identifier))).
Proof.
  split.
  - intros Hreg. unfold extract_insights, registered in *.
    rewrite !decide_False by tauto. done.
  - intros Hnone. unfold InsightAnnotatorFactory.create. by rewrite Hnone.
Qed.

(** C7. A payload without [textAnnotations] and without
    [fullTextAnnotation] builds the empty document. Without
    [textAnnotations] a document that is built has no region, and a
    failure is the failure of the full text annotation that is present.
    Without [fullTextAnnotation] a document that is built answers no value
    to both full text queries, and a failure needs [textAnnotations] to be
    present. *)
Theorem init_absent_optional_fields (data : dict) :
  (data !! lit "textAnnotations" = None →
   data !! lit "fullTextAnnotation" = None →
   OCRResult.init data
   = Ok {| OCRResult.text_annotations := [];
           OCRResult.full_text_annotation := None |})
  ∧ (data !! lit "textAnnotations" = None →
     (∀ doc, OCRResult.init data = Ok doc →
             OCRResult.text_annotations doc = [])
     ∧ (∀ e, OCRResult.init data = Raise e →
             OCRFullTextAnnotation.init
               (default JNull (data !! lit "fullTextAnnotation"))
             = Raise e))
  ∧ (data !! lit "fullTextAnnotation" = None →
     (∀ doc, OCRResult.init data = Ok doc →
             ∀ lowercase,
               OCRResult.get_full_text doc lowercase = None
               ∧ OCRResult.get_full_text_contiguous doc lowercase = None)
     ∧ (∀ e, OCRResult.init data = Raise e →
             is_Some (data !! lit "textAnnotations"))).
Proof.
  split; [|split].
  - intros Ht Hf. unfold OCRResult.init. by rewrite Ht, Hf.
  - intros Ht. unfold OCRResult.init. rewrite Ht. cbn -[lit].
    destruct (truthy _); cbn -[lit].
    + destruct (OCRFullTextAnnotation.init _) as [fta|e']; cbn -[lit].
      * split; [by intros doc [= <-]|discriminate].
      * split; [discriminate|by intros e [= <-]].
    + split; [by intros doc [= <-]|discriminate].
  - intros Hf. unfold OCRResult.init. rewrite Hf. cbn -[lit].
    destruct (data !! lit "textAnnotations") as [v|]; cbn -[lit].
    + split; [|by eauto].
      destruct (iter v) as [items|e']; cbn -[lit]; [|discriminate].
      destruct (for_ items _ []) as [tas|e']; cbn -[lit]; [|discriminate].
      by intros doc [= <-] lowercase.
    + split; [by intros doc [= <-] lowercase|discriminate].
Qed.

(** C8. In a document built with a full text annotation the contiguous
    text is the full text with each newline replaced by one space: it has
    the length of the full text and no newline. It is a field set by the
    constructor; the queries are functions of the document that read the
    fields and return no document, so whatever was asked before, the
    contiguous text query answers that field (lowered on request) and the
    full text query the full text. *)
Theorem contiguous_text_fixed data doc fta :
  OCRResult.init data = Ok doc →
  OCRResult.full_text_annotation doc = Some fta →
  OCRFullTextAnnotation.contiguous_text fta
  = map (fun c => if (c =? 10)%N then 32%N else c)
        (OCRFullTextAnnotation.text fta)
  ∧ length (OCRFullTextAnnotation.contiguous_text fta)
    = length (OCRFullTextAnnotation.text fta)
  ∧ (10%N ∉ OCRFullTextAnnotation.contiguous_text fta)
  ∧ OCRResult.get_full_text_contiguous doc false
    = Some (OCRFullTextAnnotation.contiguous_text fta)
  ∧ OCRResult.get_full_text_contiguous doc true
    = Some (lower (OCRFullTextAnnotation.contiguous_text fta))
  ∧ OCRResult.get_full_text doc false
    = Some (OCRFullTextAnnotation.text fta)
  ∧ OCRResult.get_full_text doc true
    = Some (lower (OCRFullTextAnnotation.text fta)).
Proof.
  intros Hinit Hfta.
  assert (Hc : OCRFullTextAnnotation.contiguous_text fta
               = map (fun c => if (c =? 10)%N then 32%N else c)
                     (OCRFullTextAnnotation.text fta)).
  { unfold OCRResult.init in Hinit.
    destruct (iter _) as [items|]; cbn -[lit] in Hinit; [|discriminate].
    destruct (for_ items _ []) as [tas|]; cbn -[lit] in Hinit;
      [|discriminate].
    destruct (truthy _); cbn -[lit] in Hinit.
    - destruct (OCRFullTextAnnotation.init _) as [fta'|] eqn:Efta;
        cbn -[lit] in Hinit; [|discriminate].
      injection Hinit as <-. simpl in Hfta. injection Hfta as ->.
      unfold OCRFullTextAnnotation.init in Efta.
      destruct (subscript _ _) as [[| | |text| |]|]; cbn -[lit] in Efta;
        try discriminate.
      injection Efta as <-. simpl. apply (replace_one 10%N 32%N).
    - injection Hinit as <-. discriminate. }
  split; [done|]. split; [by rewrite Hc, length_map|]. split.
  - rewrite Hc. intros Hin.
    apply list_elem_of_In, in_map_iff in Hin as (c & Hc' & _).
    destruct (N.eqb_spec c 10); congruence.
  - unfold OCRResult.get_full_text_contiguous, OCRResult.get_full_text.
    by rewrite Hfta.
Qed.

(** The pattern of [eu_fr] starts with the letter F. *)
Lemma eu_fr_needs_F must_advance c s :
  c ≠ 70%N → match_at eu_fr_re must_advance (c :: s) = None.
Proof.
  intros Hc. apply N.eqb_neq in Hc.
  change 70%N with (of_ascii "F") in Hc.
  unfold match_at, eu_fr_re. cbn -[N.eqb of_ascii]. unfold cset_matches.
  cbn -[N.eqb of_ascii]. by rewrite Hc.
Qed.

Lemma scan_eu_fr_without_F s : 70%N ∉ s → scan eu_fr_re 0 s = [].
Proof.
  induction s as [|c s IH]; intros Hs.
  - by vm_compute.
  - apply not_elem_of_cons in Hs as [Hc Hs].
    change (scan eu_fr_re 0 (c :: s))
      with (match match_at eu_fr_re false (c :: s) with
            | Some m =>
                match group0 m with
                | [] =>
                    m :: match match_at eu_fr_re true (c :: s) with
                         | Some m' =>
                             m' :: scan eu_fr_re (pred (length (group0 m'))) s
                         | None => scan eu_fr_re 0 s
                         end
                | _ :: g => m :: scan eu_fr_re (length g) s
                end
            | None => scan eu_fr_re 0 s
            end).
    rewrite eu_fr_needs_F by congruence. auto.
Qed.

(** Lowered ASCII text has no upper-case letter. *)
Lemma lower_ascii_without_F s :
  forallb is_ascii s = true → 70%N ∉ lower s.
Proof.
  intros Hs. unfold lower. rewrite Hs. clear Hs.
  intros Hin. apply list_elem_of_In, in_map_iff in Hin as (c & Hc & _).
  unfold ascii_tolower, ascii_upper, in_range in Hc.
  destruct (N.leb_spec 65 c), (N.leb_spec c 90); simpl in Hc; lia.
Qed.

(** C1, at the payload of the example. The pattern of [eu_fr] finds the
    code in the contiguous text as stored, and its normalizer gives the
    code back; but the matcher asks for lowered text, [get_text] hands the
    pattern the lowered code, which the upper-case pattern does not match,
    and no record is emitted. The pattern matches no lowered ASCII text at
    all. *)
Theorem eu_fr_code_not_extracted :
  OCRResult.init payload_fr = Ok doc_fr
  ∧ OCRResult.get_full_text_contiguous doc_fr false
    = Some (lit "FR 83.400.011 CE")
  ∧ (∃ m, scan eu_fr_re 0 (lit "FR 83.400.011 CE") = [m]
          ∧ group0 m = lit "FR 83.400.011 CE"
          ∧ process_fr_packaging_match m = Ok (lit "FR 83.400.011 CE"))
  ∧ (∀ regex_code ocr_regex,
        PACKAGER_CODE !! 1%nat = Some (regex_code, ocr_regex) →
        regex_code = lit "eu_fr"
        ∧ lowercase ocr_regex = true
        ∧ OCRResult.get_text doc_fr ocr_regex
          = Ok [JStr (lit "fr 83.400.011 ce")]
        ∧ ∀ s, forallb is_ascii s = true →
               finditer (regex ocr_regex) (JStr (lower s)) = Ok [])
  ∧ extract_insights doc_fr (lit "packager_code") = Ok [].
Proof.
  split; [by vm_compute|]. split; [by vm_compute|]. split; [|split].
  - eexists. split; [by vm_compute|]. split; by vm_compute.
  - intros regex_code ocr_regex [= <- <-]. split; [done|]. split; [done|].
    split; [by vm_compute|].
    intros s Hs. simpl.
    by rewrite scan_eu_fr_without_F by by apply lower_ascii_without_F.
  - by vm_compute.
Qed.

(** C2, at a document with the single region [Abc]. For the matcher
    [fr_emb], bound to the region texts and asking for lowered text,
    [get_text] answers two candidates for the one region, the lowered
    text and then the text as it is; and in every document the lowering
    generator yields twice per region. *)
Theorem lowercase_regions_yield_twice :
  OCRResult.init payload_region = Ok doc_region
  ∧ OCRResult.get_text doc_region fr_emb
    = Ok [JStr (lit "abc"); JStr (lit "Abc")]
  ∧ ∀ self l,
      OCRResult.iter_text_annotations self true = Ok l →
      length l = (2 * length (OCRResult.text_annotations self))%nat.
Proof.
  split; [by vm_compute|]. split; [by vm_compute|].
  apply iter_text_annotations_lowercase_length.
Qed.

End DocumentFacts.

Section DocumentSamples.
Import Py Re OCR ExtractionOrder Payloads.
Import Annotate.
#[local] Existing Instance latin1.

(** The type [nutriscore], whose branch is commented out in the source,
    is unknown to the extraction and to the factory. *)
Lemma unregistered_identifier_raises_witness :
  extract_insights doc_fr (lit "nutriscore")
  = Raise (ValueError (lit "unknown insight type: nutriscore"))
  ∧ InsightAnnotatorFactory.create (lit "nutriscore")
    = Raise (ValueError (lit "unknown annotator: nutriscore")).
Proof.
  destruct (unregistered_identifier_raises doc_fr (lit "nutriscore"))
    as [Hextract Hcreate].
  split.
  - apply Hextract. intros [Hp|Hl]; discriminate.
  - apply Hcreate. by vm_compute.
Defined.

(** The empty payload builds the empty document. *)
Lemma init_absent_optional_fields_witness :
  OCRResult.init ∅
  = Ok {| OCRResult.text_annotations := [];
          OCRResult.full_text_annotation := None |}
  ∧ (∀ doc, OCRResult.init payload_fr = Ok doc →
            OCRResult.text_annotations doc = [])
  ∧ (∀ doc, OCRResult.init payload_region = Ok doc →
            ∀ lowercase, OCRResult.get_full_text doc lowercase = None
                         ∧ OCRResult.get_full_text_contiguous doc lowercase
                           = None).
Proof.
  split; [|split].
  - apply (init_absent_optional_fields ∅); reflexivity.
  - apply (init_absent_optional_fields payload_fr). reflexivity.
  - apply (init_absent_optional_fields payload_region). reflexivity.
Defined.

(** The two lines [a] and [b] are stored as [a b]. *)
Lemma contiguous_text_fixed_witness :
  OCRResult.get_full_text_contiguous doc_lines false
  = Some [97%N; 32%N; 98%N]
  ∧ OCRResult.get_full_text doc_lines false = Some [97%N; 10%N; 98%N].
Proof.
  destruct (contiguous_text_fixed payload_lines doc_lines
              {| OCRFullTextAnnotation.text := [97%N; 10%N; 98%N];
                 OCRFullTextAnnotation.pages := [];
                 OCRFullTextAnnotation.contiguous_text :=
                   [97%N; 32%N; 98%N] |})
    as (_ & _ & _ & Hc & _ & Hf & _).
  - reflexivity.
  - reflexivity.
  - split; [exact Hc|exact Hf].
Defined.

(** The label category on the sample document. *)
Lemma extract_insights_deterministic_ordered_witness :
  extract_insights doc_fr (lit "label")
  = ordered_records doc_fr (lit "label").
Proof.
  apply (extract_insights_deterministic_ordered doc_fr (lit "label")).
  by right.
Defined.

End DocumentSamples.

(** ** Properties of the barcode and path functions *)

Section PathFacts.
Import Py Script.
Context `{DigitData}.

Lemma split_not_nil sep s : split sep s ≠ [].
Proof.
  destruct s as [|c s]; simpl; [done|].
  destruct (c =? sep)%N; [done|]. by destruct (split sep s).
Qed.

(** A piece without separator stays in front of the first piece of what
    follows. *)
Lemma split_app sep x rest :
  sep ∉ x →
  split sep (x ++ rest)
  = match split sep rest with
    | w :: ws => (x ++ w) :: ws
    | [] => [x]
    end.
Proof.
  induction x as [|c x IH]; intros Hx; simpl.
  - pose proof (split_not_nil sep rest). by destruct (split sep rest).
  - apply not_elem_of_cons in Hx as [Hc Hx].
    assert (Hcs : (c =? sep)%N = false) by (apply N.eqb_neq; congruence).
    rewrite Hcs, IH by done.
    pose proof (split_not_nil sep rest). by destruct (split sep rest).
Qed.

Lemma split_no_sep sep x : sep ∉ x → split sep x = [x].
Proof.
  intros Hx. rewrite <- (app_nil_r x) at 1. rewrite split_app by done.
  simpl. by rewrite app_nil_r.
Qed.

(** Splitting undoes joining when no piece holds the separator. *)
Lemma split_join sep xs :
  xs ≠ [] → Forall (fun x => sep ∉ x) xs →
  split sep (join [sep] xs) = xs.
Proof.
  induction xs as [|x xs IH]; intros Hne Hall; [done|].
  apply Forall_cons in Hall as [Hx Hall].
  destruct xs as [|y ys].
  - simpl. by apply split_no_sep.
  - change (join [sep] (x :: y :: ys))
      with (x ++ sep :: join [sep] (y :: ys)).
    rewrite split_app by done.
    change (split sep (sep :: join [sep] (y :: ys)))
      with (if (sep =? sep)%N then [] :: split sep (join [sep] (y :: ys))
            else match split sep (join [sep] (y :: ys)) with
                 | [] => [[sep]]
                 | w :: ws => (sep :: w) :: ws
                 end).
    rewrite N.eqb_refl, IH by done. by rewrite app_nil_r.
Qed.

Lemma join_cons sep x xs :
  xs ≠ [] → join sep (x :: xs) = x ++ sep ++ join sep xs.
Proof. by destruct xs. Qed.

Lemma join_snoc sep xs x :
  xs ≠ [] → join sep (xs ++ [x]) = join sep xs ++ sep ++ x.
Proof.
  induction xs as [|y ys IH]; intros Hne; [done|].
  destruct ys as [|z zs]; [done|].
  change ((y :: z :: zs) ++ [x]) with (y :: ((z :: zs) ++ [x])).
  rewrite join_cons by done. rewrite IH by done.
  rewrite (join_cons sep y (z :: zs)) by done.
  by rewrite <- !app_assoc.
Qed.

Lemma isdigit_chars s c : isdigit s = true → c ∈ s → char_isdigit c = true.
Proof.
  unfold isdigit. intros [_ Hall]%andb_true_iff Hc.
  rewrite forallb_forall in Hall. apply Hall. by apply list_elem_of_In.
Qed.

(** Neither the slash nor the dot is a digit. *)
Lemma isdigit_no_slash s : isdigit s = true → 47%N ∉ s.
Proof. intros Hs Hin. by pose proof (isdigit_chars s _ Hs Hin). Qed.

Lemma isdigit_not_dot s : isdigit s = true → s ≠ lit ".".
Proof.
  intros Hs ->. by pose proof (isdigit_chars (lit ".") 46%N Hs ltac:(by left)).
Qed.

Lemma isdigit_nonempty s : isdigit s = true → s ≠ [].
Proof. by intros Hs ->. Qed.

Lemma isdigit_app s t :
  isdigit s = true → isdigit t = true → isdigit (s ++ t) = true.
Proof.
  unfold isdigit. intros [Hs Hs']%andb_true_iff [_ Ht']%andb_true_iff.
  rewrite forallb_app, Hs', Ht'. by destruct s.
Qed.

(** The path made of digit directories and a file name has these
    directories and that name as its components. *)
Lemma path_components_source parts name :
  parts ≠ [] →
  Forall (fun p => isdigit p = true) parts →
  47%N ∉ name → name ≠ [] → name ≠ lit "." →
  path_components (lit "/" ++ join (lit "/") parts ++ lit "/" ++ name)
  = parts ++ [name].
Proof.
  intros Hne Hall Hslash Hname Hdot.
  assert (Hjoin : lit "/" ++ join (lit "/") parts ++ lit "/" ++ name
                  = join [47%N] ([] :: parts ++ [name])).
  { rewrite join_cons by by destruct parts.
    by rewrite join_snoc by done. }
  unfold path_components. rewrite Hjoin, split_join; [|done|].
  - rewrite filter_cons_False by (intros [? _]; done).
    rewrite filter_app. f_equal.
    + clear Hne Hjoin. induction Hall as [|p ps Hp Hps IH]; [done|].
      rewrite filter_cons_True; [by rewrite IH|].
      split; [by apply isdigit_nonempty|by apply isdigit_not_dot].
    + by rewrite filter_cons_True.
  - constructor; [by intros ?%elem_of_nil|].
    apply Forall_app. split; [|by constructor].
    eapply Forall_impl; [exact Hall|]. intros p. apply isdigit_no_slash.
Qed.

(** The loop glues the digit names back in path order. *)
Lemma prepend_digit_names_digits parts barcode :
  Forall (fun p => isdigit p = true) parts →
  prepend_digit_names (reverse parts ++ [[]]) barcode
  = concat parts ++ barcode.
Proof.
  revert barcode. induction parts as [|p ps IH] using rev_ind;
    intros barcode Hall; [done|].
  apply Forall_app in Hall as [Hps Hp]. apply Forall_inv in Hp.
  rewrite reverse_app. simpl. rewrite Hp, IH by done.
  rewrite concat_app. simpl. by rewrite app_nil_r, <- app_assoc.
Qed.

(** The digit names the loop collects are the longest run of digit
    directories at the end of the directories. *)
Lemma prepend_digit_names_run dirs barcode :
  ∃ before digits,
    dirs = before ++ digits
    ∧ Forall (fun p => isdigit p = true) digits
    ∧ (before = [] ∨ ∃ pre x, before = pre ++ [x] ∧ isdigit x = false)
    ∧ prepend_digit_names (reverse dirs ++ [[]]) barcode
      = concat digits ++ barcode.
Proof.
  revert barcode. induction dirs as [|d ds IH] using rev_ind; intros barcode.
  - exists [], []. repeat split; auto.
  - rewrite reverse_app. simpl. destruct (isdigit d) eqn:Hd.
    + destruct (IH (d ++ barcode)) as (before & digits & -> & Hall & Hb & ->).
      exists before, (digits ++ [d]). repeat split.
      * by rewrite app_assoc.
      * apply Forall_app. split; [done|by constructor].
      * done.
      * rewrite concat_app. simpl. by rewrite app_nil_r, <- app_assoc.
    + exists (ds ++ [d]), []. repeat split.
      * by rewrite app_nil_r.
      * constructor.
      * right. by exists ds, d.
Qed.

Lemma concat_digits digits :
  digits ≠ [] → Forall (fun p => isdigit p = true) digits →
  isdigit (concat digits) = true.
Proof.
  induction digits as [|p ps IH]; intros Hne Hall; [done|].
  apply Forall_cons in Hall as [Hp Hps]. simpl.
  destruct ps as [|q qs]; [by rewrite app_nil_r|].
  apply isdigit_app; [done|]. by apply IH.
Qed.

(** X1. What [split_barcode] returns, joined back without separator, is
    the barcode: four pieces of three, three, three and four characters for
    a barcode of thirteen, the barcode itself for a barcode of eight. *)
Theorem split_barcode_concat barcode parts :
  split_barcode barcode = Ok parts →
  concat parts = barcode
  ∧ ((length barcode = 13%nat ∧ map length parts = [3; 3; 3; 4]%nat)
     ∨ (length barcode = 8%nat ∧ parts = [barcode])).
Proof.
  unfold split_barcode.
  destruct (decide (length barcode = 13%nat)) as [H13|_].
  - intros [= <-]. do 14 (destruct barcode as [|? barcode]; try done).
    split; [done|]. by left.
  - destruct (decide (length barcode = 8%nat)) as [H8|_]; [|done].
    intros [= <-]. split; [by simpl; rewrite app_nil_r|]. by right.
Qed.

(** X2. A barcode that has neither thirteen nor eight characters makes
    [split_barcode] raise the [ValueError] ``unknown barcode format'', and
    [generate_image_url] and [get_source] pass that exception on. *)
Theorem split_barcode_unknown_format barcode image_name json_path :
  barcode ≠ [] → length barcode ≠ 13%nat → length barcode ≠ 8%nat →
  split_barcode barcode
  = Raise (ValueError (lit "unknown barcode format: " ++ barcode))
  ∧ generate_image_url barcode image_name
    = Raise (ValueError (lit "unknown barcode format: " ++ barcode))
  ∧ get_source image_name json_path (Some barcode)
    = Raise (ValueError (lit "unknown barcode format: " ++ barcode)).
Proof.
  intros Hne H13 H8.
  assert (Hs : split_barcode barcode
               = Raise (ValueError (lit "unknown barcode format: "
                                    ++ barcode))).
  { unfold split_barcode. by rewrite !decide_False by done. }
  split; [done|]. split.
  - unfold generate_image_url. by rewrite Hs.
  - unfold get_source. destruct barcode as [|c b]; [done|]. by rewrite Hs.
Qed.

(** X3. A text [is_barcode] accepts is split by [split_barcode] into four
    pieces of digits, so the barcode branch of [ocr_iter] never meets the
    format error. *)
Theorem is_barcode_split text :
  is_barcode text = true →
  ∃ p1 p2 p3 p4,
    split_barcode text = Ok [p1; p2; p3; p4]
    ∧ Forall (fun p => isdigit p = true) [p1; p2; p3; p4]
    ∧ text = p1 ++ p2 ++ p3 ++ p4.
Proof.
  unfold is_barcode. intros [Hlen Hdig]%andb_true_iff.
  apply bool_decide_eq_true in Hlen.
  unfold split_barcode. rewrite decide_True by done.
  do 14 (destruct text as [|? text]; try done).
  eexists _, _, _, _. split; [done|]. split; [|done].
  unfold isdigit in *. simpl in *.
  repeat (apply andb_true_iff in Hdig as [? Hdig]).
  repeat constructor; simpl; by repeat (apply andb_true_iff; split).
Qed.

(** X4. The source path [get_source] builds from a barcode of digits, of
    thirteen or eight characters, and an image name without slash is
    read back by [get_barcode_from_path] as that barcode. *)
Theorem get_source_barcode_round_trip barcode image_name json_path :
  isdigit barcode = true →
  length barcode = 13%nat ∨ length barcode = 8%nat →
  47%N ∉ image_name →
  ∃ source,
    get_source image_name json_path (Some barcode) = Ok source
    ∧ get_barcode_from_path source = Some barcode.
Proof.
  intros Hdig Hlen Hname.
  assert (Hparts : ∃ parts,
             split_barcode barcode = Ok parts ∧ parts ≠ []
             ∧ Forall (fun p => isdigit p = true) parts).
  { destruct Hlen as [H13|H8].
    - destruct (is_barcode_split barcode) as (p1 & p2 & p3 & p4 & Hs & Hd & _).
      + unfold is_barcode. rewrite Hdig. by rewrite bool_decide_eq_true_2.
      + by eexists.
    - exists [barcode]. unfold split_barcode.
      rewrite decide_False by lia. rewrite decide_True by done.
      split; [done|]. split; [done|]. by constructor. }
  destruct Hparts as (parts & Hsplit & Hne & Hall).
  destruct (split_barcode_concat _ _ Hsplit) as [Hcat _].
  eexists. split.
  - unfold get_source. destruct barcode as [|c b]; [done|].
    by rewrite Hsplit.
  - unfold get_barcode_from_path, parent_names.
    rewrite (path_components_source parts (image_name ++ lit ".jpg"));
      [|done|done| | |].
    + rewrite reverse_app. simpl.
      rewrite prepend_digit_names_digits by done.
      rewrite app_nil_r, Hcat. by destruct barcode.
    + intros [?|Hjpg]%elem_of_app; [done|].
      repeat (apply elem_of_cons in Hjpg as [Hjpg|Hjpg]; [done|]).
      by apply elem_of_nil in Hjpg.
    + by destruct image_name.
    + destruct image_name as [|? [|]]; done.
Qed.

(** X5. A barcode read off a path is made of digits: it is the
    concatenation, in path order, of the longest run of directories made
    of digits that ends right before the last component. *)
Theorem get_barcode_from_path_digits path barcode :
  get_barcode_from_path path = Some barcode →
  isdigit barcode = true
  ∧ ∃ before digits name,
      path_components path = before ++ digits ++ [name]
      ∧ digits ≠ []
      ∧ Forall (fun p => isdigit p = true) digits
      ∧ (before = [] ∨ ∃ pre x, before = pre ++ [x] ∧ isdigit x = false)
      ∧ barcode = concat digits.
Proof.
  unfold get_barcode_from_path, parent_names.
  destruct (path_components path) as [|c cs _] using rev_ind; [done|].
  rewrite reverse_app. simpl.
  destruct (prepend_digit_names_run cs [])
    as (before & digits & -> & Hall & Hbefore & ->).
  rewrite app_nil_r. intros Hsome.
  assert (Hb : barcode = concat digits ∧ concat digits ≠ []).
  { destruct (concat digits); [done|]. by injection Hsome as <-. }
  destruct Hb as [Hb Hcat].
  assert (Hne : digits ≠ []) by by intros ->.
  split; [rewrite Hb; by apply concat_digits|].
  exists before, digits, c. by rewrite <- app_assoc.
Qed.

End PathFacts.

(** ** The matcher finds words of its pattern *)

Section MatcherFacts.
Import Py Re ReLang.
Context `{UnicodeData}.


Lemma consumed_app w s' : consumed (w ++ s') s' = w.
Proof.
  unfold consumed. rewrite length_app.
  replace (length w + length s' - length s')%nat with (length w) by lia.
  by rewrite take_app_length.
Qed.



(** The length of a word lies between the bounds of its pattern. *)
Lemma lang_length icase r :
  ∀ w, lang icase r w → (min_len r <= length w <= max_len r)%nat.
Proof.
  induction r as [|cs|r1 IH1 r2 IH2|r1 IH1 r2 IH2|i r1 IH1|lo hi r1 IH1];
    intros w Hw; simpl in *.
  - subst. simpl. lia.
  - destruct Hw as (c & -> & _). simpl. lia.
  - destruct Hw as (w1 & w2 & -> & H1 & H2).
    apply IH1 in H1. apply IH2 in H2. rewrite length_app. lia.
  - destruct Hw as [H1|H2]; [apply IH1 in H1|apply IH2 in H2]; lia.
  - by apply IH1.
  - destruct Hw as (ws & -> & Hlen & Hws).
    assert (Hsum : (length ws * min_len r1 <= length (concat ws)
                    <= length ws * max_len r1)%nat).
    { clear Hlen. induction Hws as [|x xs Hx Hxs IHxs]; simpl; [lia|].
      apply IH1 in Hx. rewrite length_app. lia. }
    split.
    + etrans; [|apply Hsum]. apply Nat.mul_le_mono_r. lia.
    + etrans; [apply Hsum|]. apply Nat.mul_le_mono_r. lia.
Qed.

End MatcherFacts.

(** ** Properties of the document constructor and of the queries *)

Section ConstructorFacts.
Import Py Re OCR.

Lemma mapM_Ok {A B} (f : A → result B) xs ys :
  mapM f xs = Ok ys ↔ Forall2 (fun x y => f x = Ok y) xs ys.
Proof.
  split.
  - revert ys. induction xs as [|x xs IH]; intros ys; simpl.
    + intros [= <-]. constructor.
    + destruct (f x) as [y|e] eqn:Hx; [|done].
      destruct (mapM f xs) as [ys'|e]; [|done].
      intros [= <-]. constructor; [done|]. by apply IH.
  - induction 1 as [|x y xs ys Hx Hxs IH]; simpl; [done|].
    by rewrite Hx, IH.
Qed.

Lemma mapM_cons_eq {A B} (f : A → result B) x xs :
  mapM f (x :: xs) = y ← f x; ys ← mapM f xs; Ok (y :: ys).
Proof. done. Qed.

Lemma for_app {A S} (body : A → S → result S) xs ys s :
  for_ (xs ++ ys) body s = s' ← for_ xs body s; for_ ys body s'.
Proof.
  revert s. induction xs as [|x xs IH]; intros s; simpl; [done|].
  destruct (body x s); simpl; [apply IH|done].
Qed.

(** The loop of the constructor builds one region per item. *)
Lemma init_regions_loop items acc :
  for_ items
    (fun text_annotation_data text_annotations =>
       text_annotation ← OCRTextAnnotation.init text_annotation_data;
       Ok (text_annotations ++ [text_annotation])) acc
  = regions ← mapM OCRTextAnnotation.init items; Ok (acc ++ regions).
Proof. by apply for_append1. Qed.

(** What a region that was built says of its item. *)
Lemma text_annotation_init_Ok item region :
  OCRTextAnnotation.init item = Ok region →
  ∃ d, item = JObj d
       ∧ d !! lit "description" = Some (OCRTextAnnotation.text region)
       ∧ OCRTextAnnotation.locale region = default JNull (d !! lit "locale")
       ∧ is_Some (d !! lit "boundingPoly").
Proof.
  unfold OCRTextAnnotation.init.
  destruct item as [| | | | |d]; try done. cbn -[lit].
  unfold getitem.
  destruct (d !! lit "description") as [text|] eqn:Ht; cbn -[lit]; [|done].
  destruct (d !! lit "boundingPoly") as [poly|] eqn:Hp; cbn -[lit]; [|done].
  destruct (subscript poly _) as [vs|]; cbn -[lit]; [|done].
  destruct (iter vs) as [points|]; cbn -[lit]; [|done].
  destruct (mapM _ points) as [bp|]; cbn -[lit]; [|done].
  intros [= <-]. exists d. by eauto.
Qed.

(** A well-formed item builds a region. *)
Lemma text_annotation_init_well_formed item :
  WellFormed.region item → ∃ region, OCRTextAnnotation.init item = Ok region.
Proof.
  intros (d & poly & vertices & -> & [text Ht] & Hp & Hv & Hpoints).
  unfold OCRTextAnnotation.init. cbn -[lit]. unfold getitem.
  rewrite Ht, Hp. cbn -[lit]. unfold getitem. rewrite Hv. cbn -[lit].
  assert (Hbp : ∃ bp,
             mapM (fun point =>
                     x ← get_method point (lit "x") (JInt 0);
                     y ← get_method point (lit "y") (JInt 0);
                     Ok (x, y)) vertices = Ok bp).
  { clear Hv. induction Hpoints as [|v vs [p ->] Hvs IH]; [by exists []|].
    destruct IH as [bp Hbp]. eexists. cbn -[lit]. by rewrite Hbp. }
  destruct Hbp as [bp ->]. by eexists.
Qed.

(** The constructor, with its loop read as a [mapM]. *)
Lemma init_unfold (data : dict) :
  OCRResult.init data
  = items ← iter (default (JArr []) (data !! lit "textAnnotations"));
    regions ← mapM OCRTextAnnotation.init items;
    full_text_annotation ←
      (if truthy (default JNull (data !! lit "fullTextAnnotation"))
       then fta ← OCRFullTextAnnotation.init
                    (default JNull (data !! lit "fullTextAnnotation"));
            Ok (Some fta)
       else Ok None);
    Ok {| OCRResult.text_annotations := regions;
          OCRResult.full_text_annotation := full_text_annotation |}.
Proof.
  unfold OCRResult.init.
  destruct (iter _) as [items|]; cbn -[lit]; [|done].
  rewrite init_regions_loop.
  by destruct (mapM OCRTextAnnotation.init items).
Qed.

(** X6. A document that was built has one region per item of
    [textAnnotations], in the order of the payload; every item is an object
    with a bounding polygon, the text of its region is its description and
    the locale its [locale], or [None]. *)
Theorem init_regions_in_order data doc items :
  OCRResult.init data = Ok doc →
  data !! lit "textAnnotations" = Some (JArr items) →
  Forall2
    (fun item region =>
       ∃ d, item = JObj d
            ∧ d !! lit "description" = Some (OCRTextAnnotation.text region)
            ∧ OCRTextAnnotation.locale region
              = default JNull (d !! lit "locale")
            ∧ is_Some (d !! lit "boundingPoly"))
    items (OCRResult.text_annotations doc).
Proof.
  rewrite init_unfold. intros Hinit Hitems. rewrite Hitems in Hinit.
  cbn -[lit] in Hinit.
  destruct (mapM OCRTextAnnotation.init items) as [regions|] eqn:Hmap;
    cbn -[lit] in Hinit; [|done].
  destruct (if truthy _ then _ else _) as [fta|]; cbn -[lit] in Hinit;
    [|done].
  injection Hinit as <-. simpl.
  apply mapM_Ok in Hmap.
  eapply Forall2_impl; [exact Hmap|].
  intros item region. apply text_annotation_init_Ok.
Qed.

(** X7. A well-formed payload always builds a document: the regions are
    absent or an array of objects with a description and a bounding
    polygon of vertex objects, and the full text annotation is absent,
    tests false, or is an object whose [text] is a string. *)
Theorem init_well_formed data :
  WellFormed.payload data → ∃ doc, OCRResult.init data = Ok doc.
Proof.
  intros [Hregions Hfull]. rewrite init_unfold.
  unfold WellFormed.regions, WellFormed.full_text in *.
  assert (Hmap : ∃ regions,
             (items ← iter (default (JArr [])
                              (data !! lit "textAnnotations"));
              mapM OCRTextAnnotation.init items) = Ok regions).
  { destruct (data !! lit "textAnnotations") as [v|]; [|by exists []].
    destruct Hregions as (items & -> & Hall). cbn -[lit].
    induction Hall as [|item items Hitem Hitems [regions IH]];
      [by exists []|].
    destruct (text_annotation_init_well_formed item Hitem) as [r Hr].
    exists (r :: regions). by rewrite mapM_cons_eq, Hr, IH. }
  destruct Hmap as [regions Hmap].
  destruct (iter _) as [items|]; cbn -[lit] in *; [|done].
  rewrite Hmap. cbn -[lit].
  destruct (data !! lit "fullTextAnnotation") as [v|]; cbn -[lit];
    [|by eexists].
  destruct Hfull as [->|(d & text & -> & Ht)]; [by eexists|].
  destruct (truthy (JObj d)); [|by eexists].
  unfold OCRFullTextAnnotation.init. cbn -[lit]. unfold getitem.
  rewrite Ht. by eexists.
Qed.

(** X8. One item without [description], or with a description and without
    [boundingPoly], makes the construction of the whole document fail with
    the [KeyError] of that key, wherever the item stands among well-formed
    items. *)
Theorem init_malformed_region data good d rest :
  data !! lit "textAnnotations" = Some (JArr (good ++ JObj d :: rest)) →
  Forall WellFormed.region good →
  (d !! lit "description" = None →
   OCRResult.init data = Raise (KeyError (lit "description")))
  ∧ (is_Some (d !! lit "description") → d !! lit "boundingPoly" = None →
     OCRResult.init data = Raise (KeyError (lit "boundingPoly"))).
Proof.
  intros Hitems Hgood. rewrite init_unfold, Hitems. cbn -[lit].
  assert (Hbad : ∀ e, OCRTextAnnotation.init (JObj d) = Raise e →
            mapM OCRTextAnnotation.init (good ++ JObj d :: rest) = Raise e).
  { intros e He. clear Hitems.
    induction Hgood as [|item items Hitem Hitems IH].
    - simpl app. by rewrite mapM_cons_eq, He.
    - destruct (text_annotation_init_well_formed item Hitem) as [r Hr].
      simpl app. by rewrite mapM_cons_eq, Hr, IH. }
  split.
  - intros Hd. rewrite (Hbad (KeyError (lit "description"))); [done|].
    unfold OCRTextAnnotation.init. cbn -[lit]. unfold getitem.
    by rewrite Hd.
  - intros [text Hd] Hp.
    rewrite (Hbad (KeyError (lit "boundingPoly"))); [done|].
    unfold OCRTextAnnotation.init. cbn -[lit]. unfold getitem.
    rewrite Hd. cbn -[lit]. by rewrite Hp.
Qed.

Lemma top_level_keys_ne : lit "fullTextAnnotation" ≠ lit "textAnnotations".
Proof. discriminate. Qed.

(** X9. With well-formed regions, a full text annotation that is a
    non-empty object without [text] makes the construction fail with
    [KeyError], and one whose [text] is not a string with
    [AttributeError]; a full text annotation that tests false (an empty
    object, [null]) is taken as absent. *)
Theorem init_full_text_annotation data v :
  WellFormed.regions data →
  data !! lit "fullTextAnnotation" = Some v →
  (truthy v = false →
   ∃ doc, OCRResult.init data = Ok doc
          ∧ OCRResult.full_text_annotation doc = None)
  ∧ (∀ d, v = JObj d → d ≠ ∅ → d !! lit "text" = None →
          OCRResult.init data = Raise (KeyError (lit "text")))
  ∧ (∀ d t, v = JObj d → d !! lit "text" = Some t →
            (∀ s, t ≠ JStr s) →
            OCRResult.init data = Raise AttributeError).
Proof.
  intros Hregions Hv.
  destruct (init_well_formed (delete (lit "fullTextAnnotation") data))
    as [doc0 Hdoc0].
  { split.
    - unfold WellFormed.regions in *.
      by rewrite (lookup_delete_ne data _ _ top_level_keys_ne).
    - unfold WellFormed.full_text. by rewrite lookup_delete_eq. }
  rewrite init_unfold in Hdoc0.
  rewrite (lookup_delete_ne data _ _ top_level_keys_ne) in Hdoc0.
  rewrite lookup_delete_eq in Hdoc0. cbn -[lit] in Hdoc0.
  rewrite init_unfold, Hv. cbn -[lit].
  destruct (iter _) as [items|]; cbn -[lit] in *; [|done].
  destruct (mapM OCRTextAnnotation.init items) as [regions|];
    cbn -[lit] in *; [|done].
  split; [|split].
  - intros Htruthy. rewrite Htruthy. cbn. eexists. split; reflexivity.
  - intros d -> Hne Ht.
    assert (Htruthy : truthy (JObj d) = true).
    { simpl. by rewrite bool_decide_eq_false_2. }
    rewrite Htruthy. unfold OCRFullTextAnnotation.init. cbn -[lit].
    unfold getitem. by rewrite Ht.
  - intros d t -> Ht Hstr.
    assert (Htruthy : truthy (JObj d) = true).
    { simpl. rewrite bool_decide_eq_false_2; [done|].
      intros ->. by rewrite lookup_empty in Ht. }
    rewrite Htruthy. unfold OCRFullTextAnnotation.init. cbn -[lit].
    unfold getitem. rewrite Ht. cbn -[lit].
    destruct t; try done. by destruct (Hstr s).
Qed.

End ConstructorFacts.

(** ** Properties of the queries and of the extraction *)

Section QueryFacts.
Import Py Re OCR ExtractionOrder ReLang.
Context `{UnicodeData}.

Lemma mapM_pure {A B} (g : A → B) xs :
  mapM (fun x => Ok (g x)) xs = Ok (map g xs).
Proof. induction xs as [|x xs IH]; simpl; [done|]. by rewrite IH. Qed.

Lemma iter_text_annotations_false self :
  OCRResult.iter_text_annotations self false
  = Ok (map OCRTextAnnotation.text (OCRResult.text_annotations self)).
Proof.
  unfold OCRResult.iter_text_annotations.
  rewrite (for_append1 (fun ta => Ok (OCRTextAnnotation.text ta)));
    [|done].
  by rewrite mapM_pure.
Qed.

(** X10. Without lowering, the region texts are handed out as they are
    stored, one per region and in order, and the generator never raises,
    whatever the type of a text. *)
Theorem iter_text_annotations_as_stored self ocr_regex :
  OCRResult.iter_text_annotations self false
  = Ok (map OCRTextAnnotation.text (OCRResult.text_annotations self))
  ∧ (field ocr_regex = OCRField.text_annotations →
     lowercase ocr_regex = false →
     OCRResult.get_text self ocr_regex
     = Ok (map OCRTextAnnotation.text (OCRResult.text_annotations self))).
Proof.
  split; [apply iter_text_annotations_false|].
  intros Hf Hl. unfold OCRResult.get_text. rewrite Hf, Hl.
  apply iter_text_annotations_false.
Qed.

(** X11. With lowering, the regions whose texts are the strings [texts]
    give, for each text in order, its lowered form and then the text as it
    is; [get_text] returns that list for a matcher bound to the regions. *)
Theorem iter_text_annotations_lowered self texts ocr_regex :
  WellFormed.string_regions self texts →
  OCRResult.iter_text_annotations self true
  = Ok (flat_map (fun s => [JStr (lower s); JStr s]) texts)
  ∧ (field ocr_regex = OCRField.text_annotations →
     lowercase ocr_regex = true →
     OCRResult.get_text self ocr_regex
     = Ok (flat_map (fun s => [JStr (lower s); JStr s]) texts)).
Proof.
  intros Hstr.
  assert (Hiter : OCRResult.iter_text_annotations self true
                  = Ok (flat_map (fun s => [JStr (lower s); JStr s]) texts)).
  { unfold OCRResult.iter_text_annotations, WellFormed.string_regions in *.
    rewrite (for_append
               (fun ta => low ← lower_method (OCRTextAnnotation.text ta);
                          Ok [low; OCRTextAnnotation.text ta])).
    - revert texts Hstr.
      induction (OCRResult.text_annotations self) as [|ta tas IH];
        intros [|s texts] Hstr; try done.
      injection Hstr as Hs Hstr. rewrite mapM_cons_eq, Hs. simpl.
      specialize (IH texts Hstr).
      destruct (mapM _ tas) as [yss|]; simpl in *; [|done].
      by injection IH as ->.
    - intros ta acc.
      destruct (lower_method (OCRTextAnnotation.text ta)); simpl; [|done].
      by rewrite <- app_assoc. }
  split; [done|]. intros Hf Hl. unfold OCRResult.get_text.
  by rewrite Hf, Hl.
Qed.

Lemma iter_text_annotations_raises self region :
  region ∈ OCRResult.text_annotations self →
  (∀ s, OCRTextAnnotation.text region ≠ JStr s) →
  OCRResult.iter_text_annotations self true = Raise AttributeError.
Proof.
  intros Hin Hns. unfold OCRResult.iter_text_annotations.
  rewrite (for_append
             (fun ta => low ← lower_method (OCRTextAnnotation.text ta);
                        Ok [low; OCRTextAnnotation.text ta])).
  - assert (Hraise : mapM (fun ta =>
                             low ← lower_method (OCRTextAnnotation.text ta);
                             Ok [low; OCRTextAnnotation.text ta])
                          (OCRResult.text_annotations self)
                     = Raise AttributeError); [|by rewrite Hraise].
    induction (OCRResult.text_annotations self) as [|ta tas IH];
      [by apply elem_of_nil in Hin|].
    rewrite mapM_cons_eq.
    destruct (OCRTextAnnotation.text ta) as [| | |s| |] eqn:Hta; try done.
    apply elem_of_cons in Hin as [->|Hin]; [by destruct (Hns s)|].
    simpl. by rewrite IH.
  - intros ta acc.
    destruct (lower_method (OCRTextAnnotation.text ta)); simpl; [|done].
    by rewrite <- app_assoc.
Qed.

Lemma get_text_one_candidate self ocr_regex :
  field ocr_regex ≠ OCRField.text_annotations →
  ∃ texts,
    OCRResult.get_text self ocr_regex = Ok texts
    ∧ (texts = [] ∨ ∃ c s, texts = [JStr (c :: s)]).
Proof.
  intros Hf. unfold OCRResult.get_text.
  destruct (field ocr_regex); try done.
  - destruct (OCRResult.nonempty _) as [text|] eqn:Hn; eexists;
      (split; [done|]); [|by left].
    unfold OCRResult.nonempty in Hn.
    destruct (OCRResult.get_full_text _ _) as [[|c s]|]; try done.
    injection Hn as <-. right. by exists c, s.
  - destruct (OCRResult.nonempty _) as [text|] eqn:Hn; eexists;
      (split; [done|]); [|by left].
    unfold OCRResult.nonempty in Hn.
    destruct (OCRResult.get_full_text_contiguous _ _) as [[|c s]|];
      try done.
    injection Hn as <-. right. by exists c, s.
Qed.

(** X13. For a matcher bound to the full text or to the contiguous text,
    [get_text] never raises and returns no candidate or one candidate,
    which is a non-empty string. *)
Theorem get_text_full_text_fields self ocr_regex :
  field ocr_regex ≠ OCRField.text_annotations →
  ∃ texts,
    OCRResult.get_text self ocr_regex = Ok texts
    ∧ (texts = [] ∨ ∃ c s, texts = [JStr (c :: s)]).
Proof. apply get_text_one_candidate. Qed.

(** The contiguous text of a document that was built has no newline. *)
Lemma init_contiguous_one_line data doc fta :
  OCRResult.init data = Ok doc →
  OCRResult.full_text_annotation doc = Some fta →
  (10%N ∉ OCRFullTextAnnotation.contiguous_text fta)
  ∧ length (OCRFullTextAnnotation.contiguous_text fta)
    = length (OCRFullTextAnnotation.text fta)
  ∧ (forallb is_ascii (OCRFullTextAnnotation.text fta) = true →
     forallb is_ascii (OCRFullTextAnnotation.contiguous_text fta) = true).
Proof.
  rewrite init_unfold. intros Hinit Hfta.
  destruct (iter _) as [items|]; cbn -[lit] in Hinit; [|done].
  destruct (mapM _ items) as [regions|]; cbn -[lit] in Hinit; [|done].
  destruct (truthy _); cbn -[lit] in Hinit.
  - destruct (OCRFullTextAnnotation.init _) as [fta'|] eqn:Efta;
      cbn -[lit] in Hinit; [|done].
    injection Hinit as <-. simpl in Hfta. injection Hfta as ->.
    unfold OCRFullTextAnnotation.init in Efta.
    destruct (subscript _ _) as [[| | |text| |]|]; cbn -[lit] in Efta;
      try done.
    injection Efta as <-. simpl. rewrite (replace_one 10%N 32%N).
    split; [|split].
    + intros Hin. apply list_elem_of_In, in_map_iff in Hin as (c & Hc & _).
      destruct (N.eqb_spec c 10); congruence.
    + by rewrite length_map.
    + rewrite !forallb_forall. intros Hall c Hc.
      apply in_map_iff in Hc as (c' & <- & Hc').
      destruct (c' =? 10)%N; [done|by apply Hall].
  - injection Hinit as <-. done.
Qed.

(** Lowering ASCII text brings in no newline. *)
Lemma lower_ascii_one_line s :
  forallb is_ascii s = true → 10%N ∉ s → 10%N ∉ lower s.
Proof.
  intros Hs Hnl. unfold lower. rewrite Hs.
  intros Hin. apply list_elem_of_In, in_map_iff in Hin as (c & Hc & Hin).
  apply list_elem_of_In in Hin.
  unfold ascii_tolower, ascii_upper, in_range in Hc.
  destruct (N.leb_spec 65 c), (N.leb_spec c 90); simpl in Hc;
    try (subst; done); lia.
Qed.

(** X14. In a document that was built, no candidate of a matcher bound to
    the contiguous text holds a newline, when the matcher does not lower
    the text or the full text is ASCII: such a matcher cannot match across
    a line break of the full text. *)
Theorem contiguous_candidates_one_line data doc ocr_regex texts s :
  OCRResult.init data = Ok doc →
  field ocr_regex = OCRField.full_text_contiguous →
  (lowercase ocr_regex = false
   ∨ ∀ fta, OCRResult.full_text_annotation doc = Some fta →
            forallb is_ascii (OCRFullTextAnnotation.text fta) = true) →
  OCRResult.get_text doc ocr_regex = Ok texts →
  JStr s ∈ texts →
  10%N ∉ s.
Proof.
  intros Hinit Hf Hlow. unfold OCRResult.get_text. rewrite Hf.
  unfold OCRResult.get_full_text_contiguous.
  destruct (OCRResult.full_text_annotation doc) as [fta|] eqn:Hfta;
    [|by intros [= <-] ?%elem_of_nil].
  destruct (init_contiguous_one_line data doc fta Hinit Hfta)
    as (Hnl & _ & Hascii).
  destruct (lowercase ocr_regex) eqn:Hl.
  - destruct Hlow as [|Hlow]; [done|].
    specialize (Hascii (Hlow fta eq_refl)).
    pose proof (lower_ascii_one_line _ Hascii Hnl) as Hlnl.
    destruct (OCRResult.nonempty _) as [text|] eqn:Hn;
      [|by intros [= <-] ?%elem_of_nil].
    unfold OCRResult.nonempty in Hn.
    destruct (lower _) as [|c t]; [done|]. injection Hn as <-.
    intros [= <-] [= ->]%list_elem_of_singleton. done.
  - destruct (OCRResult.nonempty _) as [text|] eqn:Hn;
      [|by intros [= <-] ?%elem_of_nil].
    unfold OCRResult.nonempty in Hn.
    destruct (OCRFullTextAnnotation.contiguous_text fta) as [|c t];
      [done|]. injection Hn as <-.
    intros [= <-] [= ->]%list_elem_of_singleton. done.
Qed.





End QueryFacts.

(** ** What the packager code matchers find in ASCII documents *)

Section PackagerCodeFacts.
Import Py Re OCR ExtractionOrder ReLang Payloads.
Context `{UnicodeData}.

(** The pattern of [fr_emb] starts with the letter E. *)
Lemma fr_emb_needs_E must_advance c s :
  c ≠ 69%N → match_at fr_emb_re must_advance (c :: s) = None.
Proof.
  intros Hc. apply N.eqb_neq in Hc.
  change 69%N with (of_ascii "E") in Hc.
  unfold match_at, fr_emb_re. cbn -[N.eqb of_ascii]. unfold cset_matches.
  cbn -[N.eqb of_ascii]. by rewrite Hc.
Qed.

Lemma scan_fr_emb_without_E s : 69%N ∉ s → scan fr_emb_re 0 s = [].
Proof.
  induction s as [|c s IH]; intros Hs.
  - by vm_compute.
  - apply not_elem_of_cons in Hs as [Hc Hs].
    change (scan fr_emb_re 0 (c :: s))
      with (match match_at fr_emb_re false (c :: s) with
            | Some m =>
                match group0 m with
                | [] =>
                    m :: match match_at fr_emb_re true (c :: s) with
                         | Some m' =>
                             m' :: scan fr_emb_re
                                     (pred (length (group0 m'))) s
                         | None => scan fr_emb_re 0 s
                         end
                | _ :: g => m :: scan fr_emb_re (length g) s
                end
            | None => scan fr_emb_re 0 s
            end).
    rewrite fr_emb_needs_E by congruence. auto.
Qed.

Lemma lower_ascii_without_E s :
  forallb is_ascii s = true → 69%N ∉ lower s.
Proof.
  intros Hs. unfold lower. rewrite Hs. clear Hs.
  intros Hin. apply list_elem_of_In, in_map_iff in Hin as (c & Hc & _).
  unfold ascii_tolower, ascii_upper, in_range in Hc.
  destruct (N.leb_spec 65 c), (N.leb_spec c 90); simpl in Hc; lia.
Qed.

(** The lowering generator on regions that are strings. *)
Lemma iter_text_annotations_strings self texts :
  WellFormed.string_regions self texts →
  OCRResult.iter_text_annotations self true
  = Ok (flat_map (fun s => [JStr (lower s); JStr s]) texts).
Proof.
  intros Hstr.
  unfold OCRResult.iter_text_annotations, WellFormed.string_regions in *.
  rewrite (for_append
             (fun ta => low ← lower_method (OCRTextAnnotation.text ta);
                        Ok [low; OCRTextAnnotation.text ta])).
  - revert texts Hstr.
    induction (OCRResult.text_annotations self) as [|ta tas IH];
      intros [|s texts] Hstr; try done.
    injection Hstr as Hs Hstr. rewrite mapM_cons_eq, Hs. simpl.
    specialize (IH texts Hstr).
    destruct (mapM _ tas) as [yss|]; simpl in *; [|done].
    by injection IH as ->.
  - intros ta acc.
    destruct (lower_method (OCRTextAnnotation.text ta)); simpl; [|done].
    by rewrite <- app_assoc.
Qed.

(** The matcher [eu_fr] finds nothing when the contiguous text is
    ASCII. *)
Lemma eu_fr_records_ascii ocr_result record ocr_regex :
  (∀ fta, OCRResult.full_text_annotation ocr_result = Some fta →
          forallb is_ascii (OCRFullTextAnnotation.contiguous_text fta)
          = true) →
  regex ocr_regex = eu_fr_re →
  field ocr_regex = OCRField.full_text_contiguous →
  lowercase ocr_regex = true →
  matcher_records record ocr_regex ocr_result = Ok [].
Proof.
  intros Hascii Hre Hf Hl. unfold matcher_records, OCRResult.get_text.
  rewrite Hf, Hl, Hre. unfold OCRResult.get_full_text_contiguous.
  destruct (OCRResult.full_text_annotation ocr_result) as [fta|];
    [|done].
  specialize (Hascii fta eq_refl).
  pose proof (lower_ascii_without_F _ Hascii) as HF.
  destruct (lower (OCRFullTextAnnotation.contiguous_text fta)) as [|c s];
    [done|].
  cbn -[scan eu_fr_re]. by rewrite scan_eu_fr_without_F.
Qed.

(** X17. When the contiguous text is ASCII, the full text has no part in
    the packager codes: [find_packager_codes] returns what it returns for
    the same regions without full text annotation. *)
Theorem find_packager_codes_ignores_full_text ocr_result :
  (∀ fta, OCRResult.full_text_annotation ocr_result = Some fta →
          forallb is_ascii (OCRFullTextAnnotation.contiguous_text fta)
          = true) →
  find_packager_codes ocr_result
  = find_packager_codes
      {| OCRResult.text_annotations :=
           OCRResult.text_annotations ocr_result;
         OCRResult.full_text_annotation := None |}.
Proof.
  intros Hascii. rewrite !find_packager_codes_ordered.
  unfold ordered_records. rewrite !decide_True by done.
  unfold PACKAGER_CODE. rewrite !mapM_cons_eq.
  rewrite (eu_fr_records_ascii ocr_result) by done.
  rewrite (eu_fr_records_ascii {| OCRResult.full_text_annotation := None |})
    by done.
  done.
Qed.

(** X18. On a document whose region texts are ASCII strings and whose
    contiguous text is ASCII, the packager codes found are the matches of
    the pattern of [fr_emb] in the region texts as they are stored, region
    after region: the lowered candidates and the matcher [eu_fr] add
    nothing. *)
Theorem find_packager_codes_ascii ocr_result texts :
  WellFormed.string_regions ocr_result texts →
  Forall (fun s => forallb is_ascii s = true) texts →
  (∀ fta, OCRResult.full_text_annotation ocr_result = Some fta →
          forallb is_ascii (OCRFullTextAnnotation.contiguous_text fta)
          = true) →
  find_packager_codes ocr_result
  = per_region ←
      mapM (fun s => mapM (packager_code_record (lit "fr_emb") fr_emb)
                          (scan fr_emb_re 0 s)) texts;
    Ok (concat per_region).
Proof.
  intros Hstr Htexts Hascii. rewrite find_packager_codes_ordered.
  unfold ordered_records. rewrite decide_True by done.
  unfold PACKAGER_CODE. rewrite !mapM_cons_eq.
  rewrite (eu_fr_records_ascii ocr_result) by done.
  change {| regex := fr_emb_re; field := OCRField.text_annotations;
            lowercase := true;
            processing_func := Some process_fr_emb_match |} with fr_emb.
  assert (Hemb :
    matcher_records (packager_code_record (lit "fr_emb") fr_emb) fr_emb
      ocr_result
    = per_region ←
        mapM (fun s => mapM (packager_code_record (lit "fr_emb") fr_emb)
                            (scan fr_emb_re 0 s)) texts;
      Ok (concat per_region)).
  { unfold matcher_records, OCRResult.get_text. simpl field.
    simpl lowercase. rewrite (iter_text_annotations_strings _ texts Hstr).
    simpl regex. cbn [mbind result_bind].
    clear Hstr. induction Htexts as [|s texts Hs Htexts IH]; [done|].
    cbn [flat_map app]. rewrite !mapM_cons_eq.
    cbn [finditer mbind result_bind].
    rewrite (scan_fr_emb_without_E (lower s))
      by by apply lower_ascii_without_E.
    cbn [mapM mret result_ret mbind result_bind].
    destruct (mapM (packager_code_record (lit "fr_emb") fr_emb)
                (scan fr_emb_re 0 s)) as [recs|]; [|done].
    cbn [mbind result_bind].
    destruct (mapM _ (flat_map _ texts)) as [per|];
      destruct (mapM _ texts) as [per'|]; cbn in *; try done.
    by injection IH as ->. }
  rewrite Hemb. cbn [mbind result_bind].
  destruct (mapM _ texts) as [per|]; cbn; [|done].
  by rewrite app_nil_r.
Qed.

(** X19. A document without region and without full text, or with an
    empty full text, gives no insight and no error, for both insight
    types. *)
Theorem extract_insights_empty_document ocr_result insight_type :
  OCRResult.text_annotations ocr_result = [] →
  (∀ fta, OCRResult.full_text_annotation ocr_result = Some fta →
          OCRFullTextAnnotation.text fta = []
          ∧ OCRFullTextAnnotation.contiguous_text fta = []) →
  registered insight_type →
  extract_insights ocr_result insight_type = Ok [].
Proof.
  destruct ocr_result as [regions [[text pages contiguous]|]]; simpl;
    intros -> Hfull Hreg.
  - destruct (Hfull _ eq_refl) as [Ht Hc]. simpl in *. subst.
    destruct Hreg as [->| ->]; by vm_compute.
  - destruct Hreg as [->| ->]; by vm_compute.
Qed.

End PackagerCodeFacts.

(** ** Further properties of the reconciling annotator *)

Section AnnotateMore.
Import Py Annotate Annotate.ProductInsight.
Import IngredientSpellcheckAnnotator Reconciliation AnnotateSpec.

Implicit Types (other insight : ProductInsight.t) (db : database).

(** The three ways [annotate] goes. *)
Lemma annotate_cases insight db :
  annotate insight db
  = match length_difference insight with
    | Raise e => (Raise e, db)
    | Ok d =>
        if decide (d = 0) then (Ok (), db)
        else atomic (update_others (barcode insight) (id insight) d) db
    end.
Proof.
  unfold annotate, length_difference.
  unfold mbind at 1, action_bind, pure.
  destruct (_ ≫= _) as [d|e]; [|done]. by destruct (decide (d = 0)).
Qed.

(** The loop ends normally exactly when every sibling can be shifted, and
    then leaves the shifted siblings in the table. *)
Lemma update_others_outcome insight d db r db' :
  primary_key db →
  update_others (barcode insight) (id insight) d db = (r, db') →
  match r with
  | Ok _ =>
      (∀ o, o ∈ rows db → sibling insight o → ∃ o', shift d o = Ok o')
      ∧ db' = {| rows := map (fun r => if others (barcode insight)
                                            (id insight) r
                                       then shifted d r else r) (rows db);
                 journal := journal db
                            ++ map id (filter (others (barcode insight)
                                                 (id insight)) (rows db)) |}
  | Raise e =>
      ∃ o, o ∈ rows db ∧ sibling insight o ∧ shift d o = Raise e
  end.
Proof.
  intros Hpk Hrun. pose proof Hrun as Hinv.
  unfold update_others, select_where, mbind, action_bind in Hinv.
  apply for_each_shift_and_save_inv in Hinv. destruct r as [[]|e].
  - assert (Hall : ∀ o, o ∈ rows db → sibling insight o →
                        ∃ o', shift d o = Ok o').
    { intros o Hin Hsib. apply Hinv. apply list_elem_of_filter.
      split; [|done]. apply Is_true_true. by apply others_sibling. }
    split; [done|].
    rewrite (update_others_rows insight d db Hpk Hall) in Hrun.
    by injection Hrun as <-.
  - destruct Hinv as (o & [Hsel Hin]%list_elem_of_filter & Hs).
    exists o. split; [done|]. split; [|done].
    apply others_sibling. by apply Is_true_true.
Qed.

Lemma map_lookup {A B} (f : A → B) (l : list A) (i : nat) :
  map f l !! i = f <$> l !! i.
Proof.
  revert i. induction l as [|x l IH]; intros [|i]; simpl; auto.
Qed.

(** X20. Whatever its outcome, [annotate] neither adds nor removes nor
    reorders rows, never changes a primary key, and leaves as it is every
    row that is not another [ingredient_spellcheck] insight of the same
    barcode: the rows of other products and of other types, and the row of
    the annotated insight itself. *)
Theorem annotate_frame insight db r db' :
  primary_key db →
  annotate insight db = (r, db') →
  map id (rows db') = map id (rows db)
  ∧ ∀ i row, rows db !! i = Some row → ¬ sibling insight row →
             rows db' !! i = Some row.
Proof.
  intros Hpk. rewrite annotate_cases.
  destruct (length_difference insight) as [d|e]; [|by intros [= <- <-]].
  destruct (decide (d = 0)); [by intros [= <- <-]|].
  unfold atomic.
  destruct (update_others _ _ d db) as [[[]|e] db1] eqn:Hrun;
    [|by intros [= <- <-]].
  intros [= <- <-].
  apply update_others_outcome in Hrun as [_ ->]; [|done]. simpl. split.
  - rewrite map_map. apply map_ext. intros row.
    destruct (others _ _ row); [apply shifted_id|done].
  - intros i row Hi Hns. rewrite map_lookup, Hi. simpl.
    destruct (others _ _ row) eqn:Ho; [|done].
    by apply others_sibling in Ho.
Qed.

(** X21. When [annotate] ends normally it has issued one [save] per
    sibling, in the order of the table, if the lengths differ, and no
    [save] at all if they do not. *)
Theorem annotate_journal insight db db' d :
  primary_key db →
  length_difference insight = Ok d →
  annotate insight db = (Ok (), db') →
  journal db'
  = journal db
    ++ (if decide (d = 0) then []
        else map id (filter (fun row => sibling insight row) (rows db))).
Proof.
  intros Hpk Hd. rewrite annotate_cases, Hd.
  destruct (decide (d = 0)); [intros [= <-]; by rewrite app_nil_r|].
  unfold atomic.
  destruct (update_others _ _ d db) as [[[]|e] db1] eqn:Hrun; [|done].
  intros [= <-].
  apply update_others_outcome in Hrun as [_ ->]; [|done]. simpl.
  f_equal. f_equal. apply list_filter_iff. intros row.
  rewrite <- others_sibling. by destruct (others _ _ row).
Qed.

(** X22. An insight without [correction], or without [original], or whose
    correction has no length, makes [annotate] raise before it touches the
    database: the table and the journal are as before. *)
Theorem annotate_unreadable_insight insight db :
  (data insight !! lit "correction" = None →
   annotate insight db = (Raise (KeyError (lit "correction")), db))
  ∧ (∀ correction n,
        data insight !! lit "correction" = Some correction →
        len correction = Ok n →
        data insight !! lit "original" = None →
        annotate insight db = (Raise (KeyError (lit "original")), db))
  ∧ (∀ correction,
        data insight !! lit "correction" = Some correction →
        len correction = Raise TypeError →
        annotate insight db = (Raise TypeError, db))
  ∧ (∀ e, length_difference insight = Raise e →
          annotate insight db = (Raise e, db)).
Proof.
  repeat split.
  - intros Hc. rewrite annotate_cases. unfold length_difference, getitem.
    by rewrite Hc.
  - intros c n Hc Hn Ho. rewrite annotate_cases.
    unfold length_difference, getitem. rewrite Hc. cbn -[lit].
    rewrite Hn. cbn -[lit]. by rewrite Ho.
  - intros c Hc Hn. rewrite annotate_cases.
    unfold length_difference, getitem. rewrite Hc. cbn -[lit].
    by rewrite Hn.
  - intros e He. by rewrite annotate_cases, He.
Qed.

(** X23. With a length difference that is not zero, [annotate] raises
    exactly when some sibling cannot be shifted, and the exception it
    raises is the exception of such a sibling. *)
Theorem annotate_raises_iff insight db d :
  primary_key db →
  length_difference insight = Ok d → d ≠ 0 →
  (∀ e db', annotate insight db = (Raise e, db') →
            ∃ other, other ∈ rows db ∧ sibling insight other
                     ∧ shift d other = Raise e)
  ∧ (∀ other e, other ∈ rows db → sibling insight other →
                shift d other = Raise e →
                ∃ e' db', annotate insight db = (Raise e', db')).
Proof.
  intros Hpk Hd Hne. split.
  - intros e db' Hrun. rewrite annotate_cases, Hd in Hrun.
    rewrite decide_False in Hrun by done. unfold atomic in Hrun.
    destruct (update_others _ _ d db) as [[[]|e'] db1] eqn:Hloop; [done|].
    injection Hrun as <- _.
    by apply update_others_outcome in Hloop.
  - intros other e Hin Hsib Hshift. rewrite annotate_cases, Hd.
    rewrite decide_False by done. unfold atomic.
    destruct (update_others _ _ d db) as [[[]|e'] db1] eqn:Hloop;
      [|by eauto].
    apply update_others_outcome in Hloop as [Hall _]; [|done].
    destruct (Hall other Hin Hsib) as [o' Ho']. congruence.
Qed.


(** Shifting twice is shifting by the sum. *)
Lemma shifted_shifted d1 d2 other :
  has_offsets other →
  shifted d2 (shifted d1 other) = shifted (d1 + d2) other.
Proof.
  intros (s & e & Hs & He). unfold shifted.
  rewrite (shift_offsets d1 other s e Hs He).
  rewrite (shift_offsets (d1 + d2) other s e Hs He).
  erewrite (shift_offsets d2 _ (s + d1) (e + d1)); cycle 1.
  { cbn -[lit]. rewrite lookup_insert_ne by (symmetry; apply offsets_ne).
    by rewrite lookup_insert_eq. }
  { cbn -[lit]. by rewrite lookup_insert_eq. }
  unfold set_data. cbn -[lit]. f_equal. apply map_eq. intros k.
  destruct (decide (k = lit "end_offset")) as [->|Hke].
  - rewrite !lookup_insert_eq. do 2 f_equal. lia.
  - rewrite !(lookup_insert_ne _ (lit "end_offset")) by done.
    destruct (decide (k = lit "start_offset")) as [->|Hks].
    + rewrite !lookup_insert_eq. do 2 f_equal. lia.
    + by rewrite !lookup_insert_ne by done.
Qed.

(** Shifting by zero changes nothing. *)
Lemma shifted_zero other : has_offsets other → shifted 0 other = other.
Proof.
  intros (s & e & Hs & He). unfold shifted.
  rewrite (shift_offsets 0 other s e Hs He).
  destruct other as [i b t dt a]. unfold set_data. simpl in *. f_equal.
  rewrite !Z.add_0_r. rewrite (insert_id dt _ _ Hs). by apply insert_id.
Qed.

Lemma shifted_has_offsets d other :
  has_offsets other → has_offsets (shifted d other).
Proof.
  intros (s & e & Hs & He).
  destruct (shifted_row d other s e Hs He) as (_ & Hs' & He' & _).
  by exists (s + d), (e + d).
Qed.

Lemma others_shifted b k d other :
  others b k (shifted d other) = others b k other.
Proof.
  unfold shifted. destruct (shift d other) as [o'|] eqn:Hs; [|done].
  apply shift_fields in Hs as (Hi & Hb & Ht & _).
  unfold others. by rewrite Hi, Hb, Ht.
Qed.

(** X25. Annotating twice for the same insight adds up: after two
    annotations of one insight (same key and barcode) with length
    differences [d1] and [d2], every sibling is shifted by [d1 + d2] and
    nothing else has changed; when the two differences cancel, the table is
    the one before the first annotation. *)
Theorem annotate_twice insight1 insight2 db d1 d2 :
  primary_key db →
  id insight2 = id insight1 → barcode insight2 = barcode insight1 →
  length_difference insight1 = Ok d1 → d1 ≠ 0 →
  length_difference insight2 = Ok d2 → d2 ≠ 0 →
  (∀ o, o ∈ rows db → sibling insight1 o → has_offsets o) →
  ∃ db1 db2,
    annotate insight1 db = (Ok (), db1)
    ∧ annotate insight2 db1 = (Ok (), db2)
    ∧ rows db2
      = map (fun r => if others (barcode insight1) (id insight1) r
                      then shifted (d1 + d2) r else r) (rows db)
    ∧ (d1 + d2 = 0 → rows db2 = rows db).
Proof.
  intros Hpk Hid Hb Hd1 Hne1 Hd2 Hne2 Hoff.
  assert (Hshift : ∀ d o, has_offsets o → ∃ o', shift d o = Ok o').
  { intros d o (s & e & Hs & He). eexists. by apply shift_offsets. }
  eexists _, _. split; [|split; [|split]].
  - rewrite annotate_cases, Hd1, decide_False by done. unfold atomic.
    rewrite (update_others_rows insight1 d1 db Hpk); [done|].
    intros o Hin Hsib. apply Hshift. by apply Hoff.
  - rewrite annotate_cases, Hd2, decide_False by done. unfold atomic.
    rewrite Hid, Hb.
    rewrite (update_others_rows insight1 d2); [done| |].
    + by apply primary_key_shifted.
    + simpl. intros o Hin Hsib. apply Hshift.
      apply list_elem_of_In, in_map_iff in Hin as (r & <- & Hr).
      apply list_elem_of_In in Hr.
      destruct (others _ _ r) eqn:Ho.
      * apply shifted_has_offsets, Hoff; [done|]. by apply others_sibling.
      * apply others_sibling in Hsib. congruence.
  - simpl. rewrite map_map. apply map_ext_in. intros r Hr.
    destruct (others _ _ r) eqn:Ho.
    + rewrite others_shifted, Ho. apply shifted_shifted.
      apply Hoff; [by apply list_elem_of_In|by apply others_sibling].
    + by rewrite Ho.
  - intros Hsum. simpl. rewrite map_map.
    rewrite <- (map_id (rows db)) at 2. apply map_ext_in. intros r Hr.
    destruct (others _ _ r) eqn:Ho.
    + rewrite others_shifted, Ho.
      assert (Hro : has_offsets r).
      { apply Hoff; [by apply list_elem_of_In|by apply others_sibling]. }
      rewrite shifted_shifted, Hsum by done. by apply shifted_zero.
    + by rewrite Ho.
Qed.

(** X26. [InsightAnnotatorFactory.create] answers an annotator for the two
    identifiers of its mapping and for no other: the packager code
    annotator for [packager_code], the spellcheck annotator for
    [ingredient_spellcheck]. *)
Theorem create_registered identifier annotator :
  InsightAnnotatorFactory.create identifier = Ok annotator
  ↔ (identifier = lit "packager_code" ∧ annotator = PackagerCodeAnnotator)
    ∨ (identifier = lit "ingredient_spellcheck"
       ∧ annotator = IngredientSpellcheckAnnotator).
Proof.
  unfold InsightAnnotatorFactory.create, InsightAnnotatorFactory.mapping.
  destruct (decide (identifier = lit "packager_code")) as [->|Hp].
  - rewrite lookup_insert_eq. split.
    + intros [= <-]. by left.
    + intros [[_ ->]|[? _]]; done.
  - rewrite lookup_insert_ne by done.
    destruct (decide (identifier = lit "ingredient_spellcheck")) as [->|Hi].
    + rewrite lookup_singleton_eq. split.
      * intros [= <-]. by right.
      * intros [[? _]|[_ ->]]; done.
    + rewrite lookup_singleton_ne by done. split; [done|].
      intros [[? _]|[? _]]; done.
Qed.

End AnnotateMore.

(** ** The groups of a match, and the normalized values *)

Section GroupFacts.
Import Py Re ReLang ReGroups OCR.
Context `{UnicodeData}.

(** Whatever [run] answers, it answers through its continuation, after
    consuming a word of the pattern and capturing the groups of a
    derivation of that word. *)
Lemma run_derives {A} icase r :
  ∀ s caps (k : str → captures → option A) a,
    run icase r s caps k = Some a →
    ∃ w s' new, s = w ++ s' ∧ derives icase r w new
                ∧ k s' (new ++ caps) = Some a.
Proof.
  induction r as [|cs|r1 IH1 r2 IH2|r1 IH1 r2 IH2|i r1 IH1|lo hi r1 IH1];
    intros s caps k a Hrun.
  - by exists [], s, [].
  - simpl in Hrun. destruct s as [|c s]; [done|].
    destruct (cset_matches icase cs c) eqn:Hc; [|done].
    exists [c], s, []. split; [done|]. split; [|done].
    split; [by exists c|done].
  - simpl in Hrun. apply IH1 in Hrun as (w1 & s1 & n1 & -> & Hw1 & Hrun).
    apply IH2 in Hrun as (w2 & s2 & n2 & -> & Hw2 & Hk).
    exists (w1 ++ w2), s2, (n2 ++ n1). rewrite <- !app_assoc.
    split; [done|]. split; [|done]. by exists w1, w2, n1, n2.
  - simpl in Hrun. destruct (run icase r1 s caps k) as [a'|] eqn:H1.
    + injection Hrun as ->. apply IH1 in H1 as (w & s' & new & -> & Hw & Hk).
      exists w, s', new. split; [done|]. split; [|done]. by left.
    + apply IH2 in Hrun as (w & s' & new & -> & Hw & Hk).
      exists w, s', new. split; [done|]. split; [|done]. by right.
  - simpl in Hrun. apply IH1 in Hrun as (w & s' & n1 & -> & Hw & Hk).
    rewrite consumed_app in Hk.
    exists w, s', ((i, w) :: n1). split; [done|]. split; [|done].
    by exists n1.
  - simpl in Hrun. revert lo s caps k a Hrun.
    induction hi as [|hi IHhi]; intros lo s caps k a Hrun.
    + destruct (decide (lo = 0%nat)) as [->|]; [|done].
      exists [], s, []. split; [done|]. split; [|done].
      exists [], []. split; [done|]. split; [done|].
      split; [simpl; lia|constructor].
    + assert (Hskip : lo = 0%nat → k s caps = Some a →
                ∃ w s' new, s = w ++ s'
                            ∧ derives icase (Repeat lo (S hi) r1) w new
                            ∧ k s' (new ++ caps) = Some a).
      { intros -> Hk. exists [], s, []. split; [done|]. split; [|done].
        exists [], []. split; [done|]. split; [done|].
        split; [simpl; lia|constructor]. }
      match type of Hrun with
      | match ?X with _ => _ end = _ => destruct X as [a'|] eqn:Hstep
      end.
      * injection Hrun as ->.
        apply IH1 in Hstep as (w1 & s1 & n1 & -> & Hw1 & Hrest).
        apply IHhi in Hrest as (w2 & s2 & n2 & -> & Hw2 & Hk).
        destruct Hw2 as (ws & ns & -> & -> & Hlen & Hws).
        exists (w1 ++ concat ws), s2, (concat (reverse ns) ++ n1).
        rewrite <- !app_assoc. split; [done|]. split; [|done].
        exists (w1 :: ws), (n1 :: ns). split; [done|]. split.
        { rewrite reverse_cons, concat_app. simpl. by rewrite app_nil_r. }
        split; [simpl; lia|by constructor].
      * destruct (decide (lo = 0%nat)); [|done]. by apply Hskip.
Qed.

Lemma match_at_derives p must_advance s m :
  match_at p must_advance s = Some m →
  derives (ignorecase p) (body p) (group0 m) (groups m).
Proof.
  unfold match_at. intros Hrun.
  apply run_derives in Hrun as (w & s' & new & -> & Hw & Hk).
  destruct (_ && _); [done|]. injection Hk as <-. simpl.
  by rewrite consumed_app, app_nil_r.
Qed.

(** Every match of the scan carries the groups of a derivation of its
    text. *)
Lemma scan_derives p s :
  ∀ skip m, m ∈ scan p skip s →
            derives (ignorecase p) (body p) (group0 m) (groups m).
Proof.
  induction s as [|c s IH]; intros skip m Hin.
  - destruct skip as [|n]; simpl in Hin; [|by apply elem_of_nil in Hin].
    destruct (match_at p false []) as [m'|] eqn:Hm;
      [|by apply elem_of_nil in Hin].
    apply list_elem_of_singleton in Hin as ->.
    by eapply match_at_derives.
  - destruct skip as [|n]; [|by apply (IH n)].
    change (scan p 0 (c :: s))
      with (match match_at p false (c :: s) with
            | Some m =>
                match group0 m with
                | [] =>
                    m :: match match_at p true (c :: s) with
                         | Some m' =>
                             m' :: scan p (pred (length (group0 m'))) s
                         | None => scan p 0 s
                         end
                | _ :: g => m :: scan p (length g) s
                end
            | None => scan p 0 s
            end) in Hin.
    destruct (match_at p false (c :: s)) as [m1|] eqn:Hm1; [|by eapply IH].
    destruct (group0 m1) as [|? g] eqn:Hg.
    + apply elem_of_cons in Hin as [->|Hin]; [by eapply match_at_derives|].
      destruct (match_at p true (c :: s)) as [m2|] eqn:Hm2; [|by eapply IH].
      apply elem_of_cons in Hin as [->|Hin]; [by eapply match_at_derives|].
      by eapply IH.
    + apply elem_of_cons in Hin as [->|Hin]; [by eapply match_at_derives|].
      by eapply IH.
Qed.

Lemma derives_seq icase r1 r2 w new :
  derives icase (Seq r1 r2) w new →
  ∃ w1 w2 n1 n2, w = w1 ++ w2 ∧ new = n2 ++ n1
                 ∧ derives icase r1 w1 n1 ∧ derives icase r2 w2 n2.
Proof. done. Qed.

Lemma derives_group icase i r w new :
  derives icase (Group i r) w new →
  ∃ n1, new = (i, w) :: n1 ∧ derives icase r w n1.
Proof. done. Qed.


(** An optional piece is absent, or derived. *)
Lemma derives_opt icase r w new :
  derives icase (opt r) w new →
  (w = [] ∧ new = []) ∨ derives icase r w new.
Proof.
  intros (ws & ns & -> & -> & [_ Hlen] & Hall).
  destruct Hall as [|w n ws ns Hw Hall]; [by left|].
  destruct Hall; [|simpl in Hlen; lia].
  right. simpl. by rewrite !app_nil_r.
Qed.

(** A repeated character class captures nothing and consumes characters
    of the class. *)
Lemma derives_repeat_chars icase lo hi cs w new :
  derives icase (Repeat lo hi (Chars cs)) w new →
  new = [] ∧ (lo <= length w <= hi)%nat
  ∧ Forall (fun c => cset_matches icase cs c = true) w.
Proof.
  intros (ws & ns & -> & -> & Hlen & Hall).
  assert (Hws : concat (reverse ns) = []
                ∧ length (concat ws) = length ws
                ∧ Forall (fun c => cset_matches icase cs c = true)
                         (concat ws)).
  { clear Hlen. induction Hall as [|w n ws ns [(c & -> & Hc) ->] Hall IH].
    - done.
    - destruct IH as (Hn & Hl & Hf). rewrite reverse_cons, concat_app.
      rewrite Hn. simpl. rewrite Hl. by repeat constructor. }
  destruct Hws as (-> & -> & Hf). done.
Qed.

Lemma derives_chars icase cs w new :
  derives icase (Chars cs) w new →
  ∃ c, w = [c] ∧ new = [] ∧ cset_matches icase cs c = true.
Proof. intros [(c & -> & Hc) ->]. by exists c. Qed.

(** A literal consumes itself. *)
Lemma derives_text icase (t : string) w new :
  icase = false → t ≠ EmptyString →
  derives icase (text t) w new → w = lit t ∧ new = [].
Proof.
  intros ->. revert w new. induction t as [|a t IH]; intros w new Hne;
    [done|].
  assert (Hchr : ∀ w new, derives false (chr a) w new →
                          w = [of_ascii a] ∧ new = []).
  { intros w' new' [(c & -> & Hc) ->]. split; [|done].
    unfold cset_matches in Hc. simpl in Hc.
    rewrite !orb_false_r in Hc. apply N.eqb_eq in Hc. by subst. }
  destruct t as [|b t].
  - apply Hchr.
  - intros (w1 & w2 & n1 & n2 & -> & -> & H1 & H2).
    apply Hchr in H1 as [-> ->]. apply IH in H2 as [-> ->]; done.
Qed.

Lemma digit_not_space c : digit c = true → (c =? 32)%N = false.
Proof.
  unfold digit. intros Hd. apply N.eqb_neq. intros ->. done.
Qed.

Lemma derives_digit w new :
  derives false d w new → ∃ c, w = [c] ∧ new = [] ∧ digit c = true.
Proof.
  intros (c & -> & -> & Hc)%derives_chars. exists c.
  unfold cset_matches in Hc. simpl in Hc. by rewrite !orb_false_r in Hc.
Qed.

Lemma derives_opt_space w new :
  derives false (opt sp) w new →
  new = [] ∧ (w = [] ∨ w = [32%N]).
Proof.
  intros [[-> ->]|Hsp]%derives_opt; [by auto|].
  apply (derives_text false " ") in Hsp as [-> ->]; [|done|done].
  by auto.
Qed.

(** The city code of [fr_emb]: five digits, each but the first possibly
    after a space. *)
Lemma derives_city_code w new :
  derives false (seq [d; opt sp; d; opt sp; d; opt sp; d; opt sp; d]) w new →
  new = []
  ∧ ∃ d1 d2 d3 d4 d5,
      replace 32%N [] w = [d1; d2; d3; d4; d5]
      ∧ Forall (fun c => digit c = true) [d1; d2; d3; d4; d5].
Proof.
  intros (w1 & r1 & n1 & m1 & -> & -> & (c1 & -> & -> & H1)%derives_digit
          & (s1 & r2 & k1 & m2 & -> & -> & [-> Hs1]%derives_opt_space
          & (w2 & r3 & n2 & m3 & -> & -> & (c2 & -> & -> & H2)%derives_digit
          & (s2 & r4 & k2 & m4 & -> & -> & [-> Hs2]%derives_opt_space
          & (w3 & r5 & n3 & m5 & -> & -> & (c3 & -> & -> & H3)%derives_digit
          & (s3 & r6 & k3 & m6 & -> & -> & [-> Hs3]%derives_opt_space
          & (w4 & r7 & n4 & m7 & -> & -> & (c4 & -> & -> & H4)%derives_digit
          & (s4 & r8 & k4 & m8 & -> & -> & [-> Hs4]%derives_opt_space
          & (c5 & -> & -> & H5)%derives_digit)))))))).
  split; [done|]. exists c1, c2, c3, c4, c5.
  split; [|by repeat constructor].
  unfold replace.
  destruct Hs1 as [-> | ->], Hs2 as [-> | ->], Hs3 as [-> | ->],
    Hs4 as [-> | ->]; simpl;
    by rewrite ?(digit_not_space c1), ?(digit_not_space c2),
         ?(digit_not_space c3), ?(digit_not_space c4),
         ?(digit_not_space c5) by done.
Qed.

Lemma fr_emb_match_processed s skip m :
  m ∈ scan fr_emb_re skip s →
  ∃ d1 d2 d3 d4 d5 letters,
    process_fr_emb_match m
    = Ok (lit "EMB " ++ [d1; d2; d3; d4; d5] ++ letters)
    ∧ Forall (fun c => digit c = true) [d1; d2; d3; d4; d5]
    ∧ (length letters <= 2)%nat
    ∧ Forall (fun c => ascii_lower c || ascii_upper c = true) letters.
Proof.
  intros Hm%scan_derives. destruct m as [g0 gs].
  cbn [group0 groups ignorecase body fr_emb_re seq] in Hm.
  apply derives_seq in Hm
    as (w1 & w2 & n1 & n2 & -> & -> & (n1' & -> & Hemb)%derives_group & Hm).
  apply (derives_text false "EMB") in Hemb as [-> ->]; [|done|done].
  apply derives_seq in Hm
    as (s1 & w3 & k1 & n3 & -> & -> & [-> _]%derives_opt_space & Hm).
  apply derives_seq in Hm
    as (w4 & w5 & n4 & n5 & -> & -> & (n4' & -> & Hcity)%derives_group
        & Hopt).
  apply derives_city_code in Hcity
    as (-> & d1 & d2 & d3 & d4 & d5 & Hcode & Hdigits).
  apply derives_opt in Hopt
    as [[-> ->]|(n5' & -> & Hletters)%derives_group].
  - exists d1, d2, d3, d4, d5, []. unfold process_fr_emb_match, group.
    simpl. rewrite Hcode. repeat split; [done|simpl; lia|constructor].
  - apply derives_repeat_chars in Hletters as (-> & [_ Hlen] & Hall).
    exists d1, d2, d3, d4, d5, w5. unfold process_fr_emb_match, group.
    simpl. rewrite Hcode. repeat split; [done|done|].
    eapply Forall_impl; [exact Hall|]. intros c Hc.
    unfold cset_matches in Hc. simpl in Hc.
    by rewrite !orb_false_r in Hc.
Qed.





End GroupFacts.

(** ** When the extraction succeeds *)

Section ExtractionTotal.
Import Py Re OCR ExtractionOrder ReLang ReGroups Payloads.
Context `{UnicodeData}.

Lemma mapM_total {A B} (f : A → result B) xs :
  Forall (fun x => ∃ y, f x = Ok y) xs → ∃ ys, mapM f xs = Ok ys.
Proof.
  induction 1 as [|x xs [y Hy] _ [ys Hys]]; [by exists []|].
  exists (y :: ys). by rewrite mapM_cons_eq, Hy, Hys.
Qed.

(** The first item that fails decides the exception; here every failure
    is the same. *)
Lemma mapM_raise {A B} (f : A → result B) xs e :
  Forall (fun x => (∃ y, f x = Ok y) ∨ f x = Raise e) xs →
  Exists (fun x => f x = Raise e) xs →
  mapM f xs = Raise e.
Proof.
  induction 1 as [|x xs Hx Hxs IH]; intros Hex; [by inversion Hex|].
  rewrite mapM_cons_eq. destruct Hx as [[y Hy]|Hx]; [|by rewrite Hx].
  rewrite Hy. simpl. inversion Hex as [? ? Hx|? ? Hex']; subst;
    [congruence|].
  by rewrite IH.
Qed.



(** With string regions, [get_text] answers strings for every matcher. *)
Lemma get_text_strings self texts ocr_regex :
  WellFormed.string_regions self texts →
  ∃ candidates,
    OCRResult.get_text self ocr_regex = Ok candidates
    ∧ Forall WellFormed.is_string candidates.
Proof.
  intros Hstr. destruct (field ocr_regex) eqn:Hf.
  - destruct (get_text_one_candidate self ocr_regex)
      as (l & Hl & [->|(c & s & ->)]); [by rewrite Hf| |];
      (exists l || eexists); (split; [done|]); repeat constructor.
    by eexists.
  - destruct (get_text_one_candidate self ocr_regex)
      as (l & Hl & [->|(c & s & ->)]); [by rewrite Hf| |];
      (exists l || eexists); (split; [done|]); repeat constructor.
    by eexists.
  - unfold OCRResult.get_text. rewrite Hf.
    destruct (lowercase ocr_regex).
    + rewrite (iter_text_annotations_strings self texts Hstr).
      eexists. split; [done|]. clear Hstr.
      induction texts as [|s texts IH]; [constructor|].
      simpl. constructor; [by eexists|]. constructor; [by eexists|done].
    + rewrite iter_text_annotations_false. eexists. split; [done|].
      unfold WellFormed.string_regions in Hstr. rewrite Hstr.
      clear Hstr. induction texts; constructor; [by eexists|done].
Qed.

(** A matcher whose records never fail gives records for string
    candidates. *)
Lemma matcher_records_total record ocr_regex self texts :
  WellFormed.string_regions self texts →
  (∀ s m, m ∈ scan (regex ocr_regex) 0 s → ∃ rec, record m = Ok rec) →
  ∃ records, matcher_records record ocr_regex self = Ok records.
Proof.
  intros Hstr Hrec. unfold matcher_records.
  destruct (get_text_strings self texts ocr_regex Hstr)
    as (candidates & -> & Hall).
  simpl.
  destruct (mapM_total
              (fun text => matches ← finditer (regex ocr_regex) text;
                           mapM record matches) candidates)
    as [per_text Hper].
  - eapply Forall_impl; [exact Hall|]. intros v [s ->]. simpl.
    apply mapM_total. apply Forall_forall. intros m Hm. by eapply Hrec.
  - rewrite Hper. by eexists.
Qed.

(** The records of the matchers of both categories never fail on a
    match. *)
Lemma packager_code_record_total regex_code ocr_regex :
  (regex_code, ocr_regex) ∈ PACKAGER_CODE →
  ∀ s m, m ∈ scan (regex ocr_regex) 0 s →
         ∃ rec, packager_code_record regex_code ocr_regex m = Ok rec.
Proof.
  unfold PACKAGER_CODE.
  intros [[= -> ->]|[[= -> ->]|?%elem_of_nil]%elem_of_cons]%elem_of_cons;
    [| |done]; intros s m Hm; unfold packager_code_record.
  - cbn [processing_func regex] in *.
    destruct (fr_emb_match_processed _ _ _ Hm)
      as (d1 & d2 & d3 & d4 & d5 & letters & -> & _).
    by eexists.
  - by eexists.
Qed.

Lemma label_record_total label_tag ocr_regex :
  (label_tag, ocr_regex) ∈ label_matchers →
  ∀ m, ∃ rec, label_record label_tag ocr_regex m = Ok rec.
Proof.
  unfold label_matchers, LABELS_REGEX. cbn [flat_map map app].
  intros Hin m. unfold label_record.
  repeat (apply elem_of_cons in Hin as [[= -> ->]|Hin]; [by eexists|]).
  by apply elem_of_nil in Hin.
Qed.

(** X30. On a document whose region texts are strings, [extract_insights]
    never raises for a registered insight type: every candidate is a
    string and every processing function accepts the matches of its
    pattern. *)
Theorem extract_insights_total ocr_result texts insight_type :
  WellFormed.string_regions ocr_result texts →
  registered insight_type →
  ∃ records, extract_insights ocr_result insight_type = Ok records.
Proof.
  intros Hstr Hreg. unfold extract_insights. destruct Hreg as [->| ->].
  - rewrite decide_True by done. rewrite find_packager_codes_ordered.
    unfold ordered_records. rewrite decide_True by done.
    destruct (mapM_total
                (fun '(regex_code, ocr_regex) =>
                   matcher_records
                     (packager_code_record regex_code ocr_regex)
                     ocr_regex ocr_result) PACKAGER_CODE)
      as [per Hper].
    + apply Forall_forall. intros [regex_code ocr_regex] Hin.
      apply (matcher_records_total _ _ _ texts Hstr).
      by apply packager_code_record_total.
    + rewrite Hper. by eexists.
  - rewrite decide_False by discriminate. rewrite decide_True by done.
    rewrite find_labels_ordered.
    unfold ordered_records. rewrite decide_False by discriminate.
    destruct (mapM_total
                (fun '(label_tag, ocr_regex) =>
                   matcher_records (label_record label_tag ocr_regex)
                     ocr_regex ocr_result) label_matchers)
      as [per Hper].
    + apply Forall_forall. intros [label_tag ocr_regex] Hin.
      apply (matcher_records_total _ _ _ texts Hstr).
      intros s m _. by apply label_record_total.
    + rewrite Hper. by eexists.
Qed.

(** For a matcher bound to the full text or to the contiguous text the
    region texts do not matter. *)
Lemma matcher_records_full_text record ocr_regex self :
  field ocr_regex ≠ OCRField.text_annotations →
  (∀ m, ∃ rec, record m = Ok rec) →
  ∃ records, matcher_records record ocr_regex self = Ok records.
Proof.
  intros Hf Hrec. unfold matcher_records.
  destruct (get_text_one_candidate self ocr_regex Hf)
    as (l & -> & [->|(c & s & ->)]); [by eexists|].
  cbn [mbind result_bind]. rewrite mapM_cons_eq.
  cbn [finditer mbind result_bind].
  destruct (mapM_total record (scan (regex ocr_regex) 0 (c :: s)))
    as [recs ->]; [|by eexists].
  apply Forall_forall. intros m _. apply Hrec.
Qed.

(** X12. A region whose text is not a string makes the lowering generator
    raise [AttributeError], and with it [extract_insights] for the packager
    codes; for the labels [extract_insights] raises [TypeError], when the
    pattern of [xx-bio-xx] is run on the text. *)
Theorem region_not_a_string self region :
  region ∈ OCRResult.text_annotations self →
  (∀ s, OCRTextAnnotation.text region ≠ JStr s) →
  OCRResult.iter_text_annotations self true = Raise AttributeError
  ∧ extract_insights self (lit "packager_code") = Raise AttributeError
  ∧ extract_insights self (lit "label") = Raise TypeError.
Proof.
  intros Hin Hns.
  pose proof (iter_text_annotations_raises self region Hin Hns) as Hiter.
  split; [done|]. split.
  - unfold extract_insights. rewrite decide_True by done.
    rewrite find_packager_codes_ordered. unfold ordered_records.
    rewrite decide_True by done.
    assert (Hemb : ∀ record,
               matcher_records record fr_emb self = Raise AttributeError).
    { intros record. unfold matcher_records, OCRResult.get_text.
      cbn [field lowercase fr_emb]. by rewrite Hiter. }
    match goal with
    | |- context [mapM ?g PACKAGER_CODE] =>
        assert (Hmap : mapM g PACKAGER_CODE = Raise AttributeError);
        [|by rewrite Hmap]
    end.
    apply mapM_raise.
    + apply Forall_forall. intros [regex_code ocr_regex] Hin'.
      unfold PACKAGER_CODE in Hin'.
      apply elem_of_cons in Hin' as [[= -> ->]|Hin']; [right; apply Hemb|].
      apply elem_of_cons in Hin' as [[= -> ->]|Hin'];
        [|by apply elem_of_nil in Hin'].
      left. apply matcher_records_full_text; [done|].
      intros m. by eexists.
    + apply Exists_cons_hd. apply Hemb.
  - unfold extract_insights. rewrite decide_False by discriminate.
    rewrite decide_True by done.
    rewrite find_labels_ordered. unfold ordered_records.
    rewrite decide_False by discriminate.
    unfold label_matchers, LABELS_REGEX. cbn [flat_map map app].
    do 5 (rewrite mapM_cons_eq;
          match goal with
          | |- context [matcher_records ?rec ?r self] =>
              destruct (matcher_records_full_text rec r self) as [? ->];
              [done|by eexists|]
          end; cbn [mbind result_bind]).
    rewrite mapM_cons_eq.
    match goal with
    | |- context [matcher_records ?rec ?r self] =>
        assert (Hbio : matcher_records rec r self = Raise TypeError);
        [|by rewrite Hbio]
    end.
    unfold matcher_records, OCRResult.get_text. cbn [field lowercase regex].
    rewrite iter_text_annotations_false. cbn [mbind result_bind].
    match goal with
    | |- context [mapM ?g ?l] =>
        assert (Hmap : mapM g l = Raise TypeError); [|by rewrite Hmap]
    end.
    apply mapM_raise.
    + apply Forall_forall. intros v _. destruct v as [| | |s| |];
        try (by right). left. cbn [finditer mbind result_bind].
      apply mapM_total. apply Forall_forall. intros m _. by eexists.
    + apply Exists_exists. exists (OCRTextAnnotation.text region). split.
      * by apply list_elem_of_In, in_map, list_elem_of_In.
      * destruct (OCRTextAnnotation.text region) as [| | |s| |]; try done.
        by destruct (Hns s).
Qed.

End ExtractionTotal.

(** ** The further properties on sample data *)

Section MoreWitnesses.
Import Py Re OCR ExtractionOrder ReLang ReGroups Script.
Import Annotate Annotate.ProductInsight.
Import IngredientSpellcheckAnnotator Reconciliation AnnotateSpec.
Import Samples Payloads MoreSamples.
#[local] Existing Instance latin1.
#[local] Existing Instance latin1_digits.

Lemma split_barcode_concat_witness :
  concat [lit "301"; lit "762"; lit "042"; lit "2003"] = barcode13.
Proof.
  apply (split_barcode_concat barcode13
           [lit "301"; lit "762"; lit "042"; lit "2003"]).
  reflexivity.
Defined.

Lemma split_barcode_unknown_format_witness :
  generate_image_url (lit "123") (lit "1")
  = Raise (ValueError (lit "unknown barcode format: 123")).
Proof.
  apply (split_barcode_unknown_format (lit "123") (lit "1") None);
    [discriminate|simpl; lia|simpl; lia].
Defined.

Lemma is_barcode_split_witness :
  ∃ p1 p2 p3 p4, split_barcode barcode13 = Ok [p1; p2; p3; p4].
Proof.
  destruct (is_barcode_split barcode13) as (p1 & p2 & p3 & p4 & Hs & _).
  - reflexivity.
  - by exists p1, p2, p3, p4.
Defined.

Lemma get_source_barcode_round_trip_witness :
  ∃ source,
    get_source (lit "2") None (Some barcode13) = Ok source
    ∧ get_barcode_from_path source = Some barcode13.
Proof.
  apply (get_source_barcode_round_trip barcode13 (lit "2") None).
  - reflexivity.
  - left. reflexivity.
  - intros Hin. apply elem_of_cons in Hin as [Hin|Hin]; [discriminate|].
    by apply elem_of_nil in Hin.
Defined.

Lemma get_barcode_from_path_digits_witness :
  isdigit barcode13 = true.
Proof.
  apply (get_barcode_from_path_digits (lit "/data/301/762/042/2003/2.json")
           barcode13).
  by vm_compute.
Defined.

Lemma init_regions_in_order_witness :
  Forall2
    (fun item region =>
       ∃ d, item = JObj d
            ∧ d !! lit "description" = Some (OCRTextAnnotation.text region)
            ∧ OCRTextAnnotation.locale region
              = default JNull (d !! lit "locale")
            ∧ is_Some (d !! lit "boundingPoly"))
    [region_item "Sel"; region_item "EMB 29 155a"]
    (OCRResult.text_annotations doc_emb).
Proof.
  apply (init_regions_in_order payload_emb doc_emb); by vm_compute.
Defined.

Lemma region_item_well_formed description :
  WellFormed.region (region_item description).
Proof.
  eexists _, _, _. split; [done|]. split; [by eexists|].
  split; [done|]. split; [done|]. repeat constructor. by eexists.
Qed.

Lemma payload_emb_well_formed : WellFormed.payload payload_emb.
Proof.
  split; [|done]. eexists. split; [done|].
  repeat constructor; apply region_item_well_formed.
Qed.

Lemma init_well_formed_witness : ∃ doc, OCRResult.init payload_emb = Ok doc.
Proof. apply init_well_formed. exact payload_emb_well_formed. Defined.

Lemma init_malformed_region_witness :
  OCRResult.init payload_no_description
  = Raise (KeyError (lit "description")).
Proof.
  apply (init_malformed_region payload_no_description [region_item "Sel"]
           {[ lit "boundingPoly" := JObj ∅ ]} []).
  - reflexivity.
  - repeat constructor. apply region_item_well_formed.
  - reflexivity.
Defined.

Lemma init_full_text_annotation_witness :
  OCRResult.init payload_no_text = Raise (KeyError (lit "text")).
Proof.
  destruct (init_full_text_annotation payload_no_text
              (JObj {[ lit "pages" := JArr [] ]}) I eq_refl)
    as (_ & Hkey & _).
  apply (Hkey {[ lit "pages" := JArr [] ]}).
  - reflexivity.
  - intros Hempty. by apply (f_equal (lookup (lit "pages"))) in Hempty.
  - reflexivity.
Defined.

Lemma iter_text_annotations_lowered_witness :
  OCRResult.iter_text_annotations doc_emb true
  = Ok [JStr (lit "sel"); JStr (lit "Sel");
        JStr (lit "emb 29 155a"); JStr (lit "EMB 29 155a")].
Proof.
  destruct (iter_text_annotations_lowered doc_emb
              [lit "Sel"; lit "EMB 29 155a"] fr_emb eq_refl)
    as [Hiter _].
  exact Hiter.
Defined.

Lemma region_not_a_string_witness :
  extract_insights doc_number (lit "packager_code") = Raise AttributeError
  ∧ extract_insights doc_number (lit "label") = Raise TypeError.
Proof.
  destruct (region_not_a_string doc_number
              {| OCRTextAnnotation.locale := JNull;
                 OCRTextAnnotation.text := JInt 7;
                 OCRTextAnnotation.bounding_poly := [] |})
    as (_ & Hp & Hl).
  - by left.
  - discriminate.
  - by split.
Defined.

Lemma get_text_full_text_fields_witness :
  ∃ texts,
    OCRResult.get_text doc_label eu_fr = Ok texts
    ∧ (texts = [] ∨ ∃ c s, texts = [JStr (c :: s)]).
Proof. apply get_text_full_text_fields. discriminate. Defined.

Lemma contiguous_candidates_one_line_witness :
  10%N ∉ [97%N; 32%N; 98%N].
Proof.
  apply (contiguous_candidates_one_line payload_lines doc_lines eu_fr
           [JStr [97%N; 32%N; 98%N]]).
  - reflexivity.
  - reflexivity.
  - right. intros fta [= <-]. reflexivity.
  - reflexivity.
  - by left.
Defined.



Lemma find_packager_codes_ignores_full_text_witness :
  find_packager_codes doc_fr
  = find_packager_codes
      {| OCRResult.text_annotations := [];
         OCRResult.full_text_annotation := None |}.
Proof.
  apply (find_packager_codes_ignores_full_text doc_fr).
  intros fta [= <-]. reflexivity.
Defined.

Lemma find_packager_codes_ascii_witness :
  find_packager_codes doc_emb
  = per_region ←
      mapM (fun s => mapM (packager_code_record (lit "fr_emb") fr_emb)
                          (scan fr_emb_re 0 s))
           [lit "Sel"; lit "EMB 29 155a"];
    Ok (concat per_region).
Proof.
  apply (find_packager_codes_ascii doc_emb [lit "Sel"; lit "EMB 29 155a"]).
  - reflexivity.
  - repeat constructor.
  - intros fta Hfta. discriminate Hfta.
Defined.

Lemma extract_insights_empty_document_witness :
  extract_insights
    {| OCRResult.text_annotations := [];
       OCRResult.full_text_annotation := None |}
    (lit "label") = Ok [].
Proof.
  apply extract_insights_empty_document.
  - reflexivity.
  - intros fta Hfta. discriminate Hfta.
  - by right.
Defined.

Lemma table_Q_primary_key : primary_key table_Q.
Proof. apply (bool_decide_unpack _). by vm_compute. Qed.

Lemma table_Q_run : annotate insight_C table_Q = (Ok (), table_Q_after).
Proof. by vm_compute. Qed.

(** The row of the other product and the row of [C] itself are as they
    were. *)
Lemma annotate_frame_witness :
  rows table_Q_after !! 1%nat = Some insight_Q
  ∧ rows table_Q_after !! 2%nat = Some insight_C.
Proof.
  destruct (annotate_frame insight_C table_Q (Ok ()) table_Q_after
              table_Q_primary_key table_Q_run) as [_ Hframe].
  split.
  - apply Hframe; [done|]. intros (Hb & _). discriminate Hb.
  - apply Hframe; [done|]. intros (_ & Hne & _). done.
Defined.

Lemma annotate_journal_witness : journal table_Q_after = [1%N; 2%N].
Proof.
  rewrite (annotate_journal insight_C table_Q table_Q_after 3
             table_Q_primary_key eq_refl table_Q_run).
  by vm_compute.
Defined.

Lemma annotate_raises_iff_witness :
  ∃ e' db', annotate insight_C table_E = (Raise e', db').
Proof.
  destruct (annotate_raises_iff insight_C table_E 3 table_E_primary_key
              eq_refl ltac:(discriminate)) as [_ Hraise].
  apply (Hraise insight_E (KeyError (lit "start_offset"))).
  - right. by left.
  - by repeat split.
  - reflexivity.
Defined.

(** Accepting [C] and then the same insight with the opposite difference
    leaves the table as it was. *)
Lemma annotate_twice_witness :
  ∃ db1 db2,
    annotate insight_C table = (Ok (), db1)
    ∧ annotate insight_C_back db1 = (Ok (), db2)
    ∧ rows db2 = rows table.
Proof.
  destruct (annotate_twice insight_C insight_C_back table 3 (-3)
              table_primary_key eq_refl eq_refl eq_refl
              ltac:(discriminate) eq_refl ltac:(discriminate)
              table_offsets)
    as (db1 & db2 & H1 & H2 & _ & Hundo).
  exists db1, db2. split; [done|]. split; [done|]. by apply Hundo.
Defined.




Lemma extract_insights_total_witness :
  ∃ records, extract_insights doc_emb (lit "label") = Ok records.
Proof.
  apply (extract_insights_total doc_emb [lit "Sel"; lit "EMB 29 155a"]).
  - reflexivity.
  - by right.
Defined.

Lemma iter_text_annotations_as_stored_witness :
  OCRResult.get_text doc_number bio_label = Ok [JInt 7].
Proof.
  destruct (iter_text_annotations_as_stored doc_number bio_label)
    as [_ Hget].
  apply Hget; reflexivity.
Defined.

Lemma annotate_unreadable_insight_witness :
  annotate insight_F table
  = (Raise (KeyError (lit "correction")), table).
Proof.
  destruct (annotate_unreadable_insight insight_F table) as [Hc _].
  apply Hc. reflexivity.
Defined.


Lemma create_registered_witness :
  InsightAnnotatorFactory.create (lit "ingredient_spellcheck")
  = Ok IngredientSpellcheckAnnotator.
Proof.
  apply create_registered. right. by split.
Defined.

End MoreWitnesses.
